(** * Limit: the per-price FIFO of a price/time-priority matching engine

    A shallow embedding of [src/core/Limit.cpp]: [Limit::addOrderToLimit],
    [Limit::processFill], [Limit::logExecution] and [Limit::decreaseSize].

    Orders live on the C++ heap and are linked through raw [prev]/[next]
    pointers; the embedding keeps an explicit store of [Order] objects
    addressed by [ptr], so that aliasing between the Limit's [headOrder] /
    [tailOrder], the links between orders and the Book's order map is kept
    as in the source. *)

From Stdlib Require Import ZArith Lia String QArith Qcanon.
From stdpp Require Import base list gmap strings.

Local Open Scope Z_scope.

(** ** 32-bit integer conversions

    [int] and [unsigned int] values are carried as [Z]; every conversion the
    C++ source performs (implicitly or not) is written out. *)

Module Int.

Definition int_min : Z := - 2 ^ 31.
Definition int_max : Z := 2 ^ 31 - 1.

(** the value has the range of an [int] *)
Definition in_range (z : Z) : Prop := int_min <= z <= int_max.

(** conversion to [unsigned int] *)
Definition to_unsigned (z : Z) : Z := z mod 2 ^ 32.

(** conversion to [int] (two's complement) *)
Definition to_int (z : Z) : Z := (z + 2 ^ 31) mod 2 ^ 32 - 2 ^ 31.

End Int.

Import Int.

(** ** Shared value types *)

Inductive Side := Buy | Sell.

Inductive ExecutionType := PartialFill | FullFill.

(** The address of an [Order] object; [option ptr] is a possibly null
    [Order*]. *)
Abbreviation ptr := nat.

(** ** Arithmetic of average prices

    [avgPrice] is declared in headers that are not part of the sources at
    hand; its arithmetic is a parameter of the development.  [of_int] is the
    conversion of an [int] operand, [padd], [pmul] and [pdiv] are [+], [*]
    and [/] at the type of [avgPrice]. *)

Class PriceArith (P : Type) := {
  of_int : Z -> P;
  padd : P -> P -> P;
  pmul : P -> P -> P;
  pdiv : P -> P -> P
}.

(** [avgPrice] as an [int]: wrap-around products and sums, the quotient
    truncating toward zero.  The C++ division traps on a zero divisor (and
    on the quotient of the least [int] by -1), where [pdiv] has the value
    of [Z.quot]: the instance stands for the code at the other divisors
    only, and it is used below with non-zero divisors, mostly the positive
    cumulative quantity of a fill. *)
Definition IntPrice : PriceArith Z := {|
  of_int := fun z => z;
  padd := fun a b => to_int (a + b);
  pmul := fun a b => to_int (a * b);
  pdiv := fun a b => to_int (Z.quot a b)
|}.

(** [avgPrice] in exact arithmetic: the rationals, an [int] operand
    converted without loss. *)
Definition of_int_Qc (z : Z) : Qc := Q2Qc (inject_Z z).

Definition RationalPrice : PriceArith Qc := {|
  of_int := of_int_Qc;
  padd := Qcplus;
  pmul := Qcmult;
  pdiv := Qcdiv
|}.

Section Engine.

Context {P : Type} {PA : PriceArith P}.

(** The order intent handed to the engine ([OrderData]). *)
Record OrderData := mkOrderData {
  clientId : Z;
  orderSide : Side;
  limit : Z;
  shares : Z;
  executedQuantity : Z;
  avgPrice : P
}.

(** A resting order.  The projections carry the names of the getters the
    source calls.  The back-reference to the owning Limit is never read by
    the code embedded here and is left out. *)
Record Order := mkOrder {
  getOrderId : Z;
  getClientId : Z;
  getOrderSide : Side;
  getLimit : Z;
  getShares : Z;
  getExecutedQuantity : Z;
  getAvgPrice : P;
  getPrevOrder : option ptr;
  getNextOrder : option ptr
}.

Definition setShares (v : Z) (o : Order) : Order :=
  mkOrder (getOrderId o) (getClientId o) (getOrderSide o) (getLimit o)
          v (getExecutedQuantity o) (getAvgPrice o)
          (getPrevOrder o) (getNextOrder o).

Definition setExecutedQuantity (v : Z) (o : Order) : Order :=
  mkOrder (getOrderId o) (getClientId o) (getOrderSide o) (getLimit o)
          (getShares o) v (getAvgPrice o)
          (getPrevOrder o) (getNextOrder o).

Definition setAvgPrice (v : P) (o : Order) : Order :=
  mkOrder (getOrderId o) (getClientId o) (getOrderSide o) (getLimit o)
          (getShares o) (getExecutedQuantity o) v
          (getPrevOrder o) (getNextOrder o).

Definition setPrevOrder (v : option ptr) (o : Order) : Order :=
  mkOrder (getOrderId o) (getClientId o) (getOrderSide o) (getLimit o)
          (getShares o) (getExecutedQuantity o) (getAvgPrice o)
          v (getNextOrder o).

Definition setNextOrder (v : option ptr) (o : Order) : Order :=
  mkOrder (getOrderId o) (getClientId o) (getOrderSide o) (getLimit o)
          (getShares o) (getExecutedQuantity o) (getAvgPrice o)
          (getPrevOrder o) v.

(** Modelled from the spec: the constructor [Order(orderData, limit, id)]
    is not in the sources.  A resting order takes its client, side, price,
    remaining shares and running execution state from the intent and is
    created unlinked. *)
Definition newOrder (orderData : OrderData) (newOrderId : Z) : Order :=
  mkOrder newOrderId (clientId orderData) (orderSide orderData)
          (limit orderData) (shares orderData)
          (executedQuantity orderData) (avgPrice orderData) None None.

(** Modelled from the spec: the declaration of [Execution] is not in the
    sources.  The record keeps the eighteen arguments of the constructor
    call in [logExecution], in the order of the call.  The first ten are
    named as the call labels them; the cumulative and leaves quantities and
    the averages are named after the maker and taker values passed there.
    The two client ids are named by their position only: the call passes
    the taker's client id as argument 11 and the maker's as argument 12,
    and which of the two parameters the header calls the maker's is not in
    the sources.  Each value is kept as it is passed. *)
Record Execution := mkExecution {
  symbol : string;
  executionId : Z;
  makerOrderId : Z;
  takerOrderId : Z;
  execPrice : Z;
  execSize : Z;
  makerSide : Side;
  takerSide : Side;
  makerExecType : ExecutionType;
  takerExecType : ExecutionType;
  clientIdArg11 : Z;
  clientIdArg12 : Z;
  makerCumQty : Z;
  takerCumQty : Z;
  makerLeavesQty : Z;
  takerLeavesQty : Z;
  makerAvgPrice : P;
  takerAvgPrice : P
}.

(** The price level: the fields of [Limit]. *)
Record Limit := mkLimit {
  limitPrice : Z;
  size : Z;
  totalVolume : Z;
  headOrder : option ptr;
  tailOrder : option ptr
}.

(** [Limit::Limit(int limitPrice)] *)
Definition newLimit (price : Z) : Limit := mkLimit price 0 0 None None.

(** Modelled from the spec: [Book] is not in the sources.  It holds the
    symbol, the execution-id counter, the order index ([allOrders], from
    order id to the order it owns) and the queue of executions. *)
Record Book := mkBook {
  getSymbol : string;
  nextExecutionId : Z;
  allOrders : gmap Z ptr;
  executionQueue : list Execution
}.

(** Modelled from the spec: [Book::getNextExecutionId], a strictly
    monotonic counter. *)
Definition getNextExecutionId (b : Book) : Z * Book :=
  (nextExecutionId b,
   mkBook (getSymbol b) (nextExecutionId b + 1) (allOrders b)
          (executionQueue b)).

(** Modelled from the spec: [Book::addExecutionToQueue] appends to the
    FIFO of executions. *)
Definition addExecutionToQueue (e : Execution) (b : Book) : Book :=
  mkBook (getSymbol b) (nextExecutionId b) (allOrders b)
         (executionQueue b ++ [e]).

(** Modelled from the spec: [Book::addOrderToAllOrders] registers the
    order under its id and takes ownership of it. *)
Definition addOrderToAllOrders (p : ptr) (id : Z) (b : Book) : Book :=
  mkBook (getSymbol b) (nextExecutionId b) (<[id := p]> (allOrders b))
         (executionQueue b).

(** The part of the machine the Limit's methods read and write: the store
    of heap-allocated orders, the Limit itself ([*this]) and the Book. *)
Record State := mkState {
  store : list Order;
  lim : Limit;
  book : Book
}.

(** ** [Limit::decreaseSize] *)
Definition decreaseSize (l : Limit) : Limit :=
  if 0 <? size l
  then mkLimit (limitPrice l) (to_int (size l - 1)) (totalVolume l)
               (headOrder l) (tailOrder l)
  else l.

Definition setHeadOrder (h : option ptr) (l : Limit) : Limit :=
  mkLimit (limitPrice l) (size l) (totalVolume l) h (tailOrder l).

Definition setTailOrder (t : option ptr) (l : Limit) : Limit :=
  mkLimit (limitPrice l) (size l) (totalVolume l) (headOrder l) t.

Definition setTotalVolume (v : Z) (l : Limit) : Limit :=
  mkLimit (limitPrice l) (size l) v (headOrder l) (tailOrder l).

Definition setSize (n : Z) (l : Limit) : Limit :=
  mkLimit (limitPrice l) n (totalVolume l) (headOrder l) (tailOrder l).

(** ** [Limit::addOrderToLimit]

    [std::make_unique<Order>] allocates at a fresh address, here the end
    of the store.  [tailOrder->setNextOrder] dereferences [tailOrder]; the
    result is [None] when that pointer does not address an order. *)
Definition addOrderToLimit (orderData : OrderData) (newOrderId : Z)
    (st : State) : option State :=
  let newOrderPtr : ptr := length (store st) in
  let st0 := store st ++ [newOrder orderData newOrderId] in
  let l1 := setSize (to_int (size (lim st) + 1))
              (setTotalVolume (to_int (totalVolume (lim st) + shares orderData))
                 (lim st)) in
  match headOrder l1 with
  | None =>
      Some (mkState st0
              (setTailOrder (Some newOrderPtr)
                 (setHeadOrder (Some newOrderPtr) l1))
              (addOrderToAllOrders newOrderPtr newOrderId (book st)))
  | Some _ =>
      match tailOrder l1 with
      | None => None
      | Some t =>
          let st1 := alter (setPrevOrder (Some t)) newOrderPtr st0 in
          match st1 !! t with
          | None => None
          | Some _ =>
              let st2 := alter (setNextOrder (Some newOrderPtr)) t st1 in
              Some (mkState st2 (setTailOrder (Some newOrderPtr) l1)
                      (addOrderToAllOrders newOrderPtr newOrderId (book st)))
          end
      end
  end.

(** ** [Limit::logExecution]

    [executionVolume] is the [int] parameter.  The maker is updated in the
    store, the taker intent is returned updated, and the execution is
    appended to the Book's queue.  The constructor call passes the taker's
    client id before the maker's. *)
Definition logExecution (executionVolume : Z) (takerOrderId' : Z)
    (takerData : OrderData) (makerOrder : ptr) (st : State)
    : option (OrderData * State) :=
  match store st !! makerOrder with
  | None => None
  | Some m =>
      let remainingTakerShares := to_int (shares takerData - executionVolume) in
      let remainingMakerShares := to_int (getShares m - executionVolume) in
      let takerExecutionType :=
        if remainingTakerShares =? 0 then FullFill else PartialFill in
      let makerExecutionType :=
        if executionVolume =? getShares m then FullFill else PartialFill in
      let makerTotalExecQty := to_int (getExecutedQuantity m + executionVolume) in
      let takerTotalExecQty := to_int (executedQuantity takerData + executionVolume) in
      let makerAvg :=
        pdiv (padd (pmul (of_int (getExecutedQuantity m)) (getAvgPrice m))
                   (of_int (to_int (executionVolume * getLimit m))))
             (of_int makerTotalExecQty) in
      let takerAvg :=
        pdiv (padd (pmul (of_int (executedQuantity takerData)) (avgPrice takerData))
                   (of_int (to_int (executionVolume * getLimit m))))
             (of_int takerTotalExecQty) in
      let m' := setExecutedQuantity makerTotalExecQty (setAvgPrice makerAvg m) in
      let takerData' :=
        mkOrderData (clientId takerData) (orderSide takerData)
                    (limit takerData) (shares takerData)
                    (to_int (executedQuantity takerData + executionVolume))
                    takerAvg in
      let '(execId, b1) := getNextExecutionId (book st) in
      let execution :=
        mkExecution (getSymbol (book st)) execId
                    (getOrderId m') takerOrderId'
                    (getLimit m') executionVolume
                    (getOrderSide m') (orderSide takerData')
                    makerExecutionType takerExecutionType
                    (clientId takerData')
                    (getClientId m')
                    makerTotalExecQty takerTotalExecQty
                    remainingMakerShares remainingTakerShares
                    (getAvgPrice m') (avgPrice takerData') in
      Some (takerData',
            mkState (<[makerOrder := m']> (store st)) (lim st)
                    (addExecutionToQueue execution b1))
  end.

Definition setTakerShares (v : Z) (t : OrderData) : OrderData :=
  mkOrderData (clientId t) (orderSide t) (limit t) v
              (executedQuantity t) (avgPrice t).

(** ** [Limit::processFill] *)

(** What one turn of the [while] body does. *)
Inductive turn :=
| Next (nxtOrder : option ptr) (takerData : OrderData) (st : State)
| Raise
| Fault.

(** The body of the loop, entered with [nxtOrder = Some p]. *)
Definition fill_body (orderId : Z) (takerClientId' : Z) (p : ptr)
    (takerData : OrderData) (st : State) : turn :=
  match store st !! p with
  | None => Fault
  | Some o =>
      if takerClientId' =? getClientId o then Raise
      else
        let orderShares := getShares o in
        let executionVolume := to_unsigned (Z.min orderShares (shares takerData)) in
        match logExecution (to_int executionVolume) orderId takerData p st with
        | None => Fault
        | Some (takerData1, st1) =>
            let l1 := setTotalVolume
                        (to_int (to_unsigned (totalVolume (lim st1)) - executionVolume))
                        (lim st1) in
            if to_unsigned orderShares <=? executionVolume then
              let takerData2 :=
                setTakerShares (to_int (shares takerData1 - orderShares)) takerData1 in
              let l2 := decreaseSize l1 in
              match store st1 !! p with
              | None => Fault
              | Some o1 =>
                  let nxt := getNextOrder o1 in
                  Next nxt takerData2
                       (mkState (store st1) (setHeadOrder nxt l2) (book st1))
              end
            else
              let st2 :=
                alter (setShares (to_int (to_unsigned orderShares - executionVolume)))
                      p (store st1) in
              let takerData2 :=
                setTakerShares
                  (to_int (to_unsigned (shares takerData1) - executionVolume))
                  takerData1 in
              Next (Some p) takerData2 (mkState st2 l1 (book st1))
        end
  end.

(** How a call of [processFill] ends: it returns, it throws the
    [std::runtime_error] of a self-trade (with the state as it is then),
    it dereferences a dangling pointer, or the fuel of the embedding runs
    out. *)
Inductive outcome :=
| Returned (takerData : OrderData) (st : State)
| Thrown (takerData : OrderData) (st : State)
| Crashed
| OutOfFuel.

(** The loop condition. *)
Definition fill_guard (nxtOrder : option ptr) (takerData : OrderData)
    (st : State) : bool :=
  bool_decide (nxtOrder <> None)
  && negb (size (lim st) =? 0) && negb (shares takerData =? 0).

Fixpoint fill_loop (fuel : nat) (orderId takerClientId' : Z)
    (nxtOrder : option ptr) (takerData : OrderData) (st : State) : outcome :=
  match nxtOrder with
  | Some p =>
      if fill_guard nxtOrder takerData st then
        match fuel with
        | O => OutOfFuel
        | S fuel' =>
            match fill_body orderId takerClientId' p takerData st with
            | Next nxt takerData' st' =>
                fill_loop fuel' orderId takerClientId' nxt takerData' st'
            | Raise => Thrown takerData st
            | Fault => Crashed
            end
        end
      else Returned takerData st
  | None => Returned takerData st
  end.

Definition processFill (fuel : nat) (takerData : OrderData) (orderId : Z)
    (st : State) : outcome :=
  let nxtOrder := headOrder (lim st) in
  let takerClientId' := clientId takerData in
  fill_loop fuel orderId takerClientId' nxtOrder takerData st.

(** ** A fill in exact arithmetic

    What [logExecution] computes when no [int] conversion changes a value;
    [logExecution_exact] below relates the two. *)

(** the running average price after a fill of [v] shares at [price] *)
Definition fill_avg (cum : Z) (avg : P) (v price : Z) : P :=
  pdiv (padd (pmul (of_int cum) avg) (of_int (to_int (v * price))))
       (of_int (cum + v)).

Definition maker_filled (v : Z) (o : Order) : Order :=
  setExecutedQuantity (getExecutedQuantity o + v)
    (setAvgPrice (fill_avg (getExecutedQuantity o) (getAvgPrice o) v (getLimit o)) o).

Definition taker_filled (v : Z) (o : Order) (t : OrderData) : OrderData :=
  mkOrderData (clientId t) (orderSide t) (limit t) (shares t)
              (executedQuantity t + v)
              (fill_avg (executedQuantity t) (avgPrice t) v (getLimit o)).

Definition fill_execution (v orderId : Z) (o : Order) (t : OrderData)
    (b : Book) : Execution :=
  mkExecution (getSymbol b) (nextExecutionId b) (getOrderId o) orderId
              (getLimit o) v (getOrderSide o) (orderSide t)
              (if v =? getShares o then FullFill else PartialFill)
              (if shares t - v =? 0 then FullFill else PartialFill)
              (clientId t) (getClientId o)
              (getExecutedQuantity o + v) (executedQuantity t + v)
              (getShares o - v) (shares t - v)
              (fill_avg (getExecutedQuantity o) (getAvgPrice o) v (getLimit o))
              (fill_avg (executedQuantity t) (avgPrice t) v (getLimit o)).

Definition book_filled (e : Execution) (b : Book) : Book :=
  mkBook (getSymbol b) (nextExecutionId b + 1) (allOrders b)
         (executionQueue b ++ [e]).

(** The cumulative quantity and the average price of an order after the
    fills [(volume, price)], oldest first. *)
Fixpoint running_average (cum : Z) (avg : P) (fills : list (Z * Z)) : Z * P :=
  match fills with
  | [] => (cum, avg)
  | (v, price) :: fills' =>
      running_average (cum + v) (fill_avg cum avg v price) fills'
  end.

(** ** The FIFO queue of a Limit

    [is_queue h p q]: following [next] pointers from [p] in the store [h]
    visits exactly the orders [q], in that order, and ends at the null
    pointer. *)
Fixpoint is_queue (h : list Order) (p : option ptr) (q : list ptr) : Prop :=
  match q with
  | [] => p = None
  | x :: q' =>
      p = Some x /\
      exists o, h !! x = Some o /\ is_queue h (getNextOrder o) q'
  end.

(** the remaining shares of the order at an address *)
Definition shares_at (h : list Order) (x : ptr) : Z :=
  from_option getShares 0 (h !! x).

(** the sum of the remaining shares of the orders of a queue *)
Definition queue_volume (h : list Order) (q : list ptr) : Z :=
  foldr Z.add 0 (shares_at h <$> q).

(** The invariant of a Limit whose FIFO queue is [q]. *)
Definition limit_inv (st : State) (q : list ptr) : Prop :=
  is_queue (store st) (headOrder (lim st)) q /\
  size (lim st) = Z.of_nat (length q) /\
  totalVolume (lim st) = queue_volume (store st) q.

(** The data-model invariant of a resting order: shares are left, and the
    executed and the remaining quantity add up to an [int]. *)
Definition resting (o : Order) : Prop :=
  0 < getShares o /\ 0 <= getExecutedQuantity o /\
  getExecutedQuantity o + getShares o <= int_max.

Definition all_resting (h : list Order) (q : list ptr) : Prop :=
  Forall (fun x => exists o, h !! x = Some o /\ resting o) q.

(** The same for a taker intent, whose shares may be used up. *)
Definition intent_ok (t : OrderData) : Prop :=
  0 <= shares t /\ 0 <= executedQuantity t /\
  executedQuantity t + shares t <= int_max.

(** [tailOrder] addresses the last order of a queue that has one. *)
Definition tail_ok (l : Limit) (q : list ptr) : Prop :=
  q <> [] -> tailOrder l = last q.

(** the executions a call appended to the Book's queue *)
Definition appended (st st' : State) (es : list Execution) : Prop :=
  executionQueue (book st') = executionQueue (book st) ++ es.

(** the store after [addOrderToLimit] linked a new order behind [tl] *)
Definition linked (h : list Order) (tl : ptr) (onew : Order) : list Order :=
  alter (setNextOrder (Some (length h))) tl
    (alter (setPrevOrder (Some tl)) (length h) (h ++ [onew])).

(** What holds at every test of the loop condition of [processFill]:
    [nxtOrder] is the head of the queue, the Limit's invariant holds for
    the orders [q] still queued, and all quantities are in range. *)
Definition walk_inv (nxtOrder : option ptr) (t : OrderData) (st : State)
    (q : list ptr) : Prop :=
  headOrder (lim st) = nxtOrder /\
  limit_inv st q /\
  all_resting (store st) q /\
  intent_ok t /\
  totalVolume (lim st) <= int_max /\
  size (lim st) <= int_max.

(** The execution [e] is a fill of the order at address [x]. *)
Definition matched (h : list Order) (e : Execution) (x : ptr) : Prop :=
  exists o, h !! x = Some o /\ makerOrderId e = getOrderId o /\ 0 < execSize e.

(** The state after [k] turns of the loop of [processFill], when none of
    them throws or faults. *)
Fixpoint fill_turns (k : nat) (orderId takerClientId' : Z)
    (nxtOrder : option ptr) (takerData : OrderData) (st : State)
    : option (option ptr * OrderData * State) :=
  match k with
  | O => Some (nxtOrder, takerData, st)
  | S k' =>
      match nxtOrder with
      | Some p =>
          if fill_guard nxtOrder takerData st then
            match fill_body orderId takerClientId' p takerData st with
            | Next nxt takerData' st' =>
                fill_turns k' orderId takerClientId' nxt takerData' st'
            | _ => None
            end
          else None
      | None => None
      end
  end.

(** ** The walk in the words of the specification

    Over the shares of the queued orders, oldest first, and the shares
    [rem] the taker has left: the executed volume is the minimum of the
    maker's and the taker's shares, a maker whose shares are all executed
    leaves the queue, and the walk goes on while the taker has shares and
    the queue has orders.  The result is the sizes of the fills in order
    and the number of makers used up. *)
Fixpoint fifo_walk (rem : Z) (ss : list Z) : list Z * nat :=
  match ss with
  | [] => ([], 0%nat)
  | s :: ss' =>
      if rem =? 0 then ([], 0%nat)
      else if s <=? rem then
        (s :: fst (fifo_walk (rem - s) ss'), S (snd (fifo_walk (rem - s) ss')))
      else ([rem], 0%nat)
  end.

(** The walk ends only with the taker out of shares or the Limit out of
    orders, however the call ends. *)
Definition stops_when_done (fuel : nat) (t : OrderData) (id : Z) (st : State)
    : Prop :=
  forall t' st',
    processFill fuel t id st = Returned t' st' \/
    processFill fuel t id st = Thrown t' st' ->
    shares t' = 0 \/ headOrder (lim st') = None.

(** ** Well-formed Limits and sequences of calls *)

(** The Limit's invariant together with what the methods rely on: resting
    orders with shares left, [tailOrder] at the last queued order, and
    [size] and [totalVolume] below the largest [int]. *)
Definition limit_wf (st : State) (q : list ptr) : Prop :=
  limit_inv st q /\ all_resting (store st) q /\ tail_ok (lim st) q /\
  totalVolume (lim st) <= int_max /\ size (lim st) <= int_max.

(** the shares executed by a list of executions *)
Definition executed_volume (es : list Execution) : Z :=
  foldr Z.add 0 (execSize <$> es).

(** an intent that can rest: shares left, quantities in range *)
Definition restable (od : OrderData) : Prop :=
  0 < shares od /\ 0 <= executedQuantity od /\
  executedQuantity od + shares od <= int_max.

(** the total of the shares of a list of intents with their order ids *)
Definition intents_volume (ods : list (OrderData * Z)) : Z :=
  foldr (fun od acc => shares (fst od) + acc) 0 ods.

(** [addOrderToLimit] called for each intent in turn *)
Fixpoint addOrders (ods : list (OrderData * Z)) (st : State) : option State :=
  match ods with
  | [] => Some st
  | (od, id) :: ods' =>
      match addOrderToLimit od id st with
      | Some st' => addOrders ods' st'
      | None => None
      end
  end.

(** no queued order belongs to the client [cid] *)
Definition no_self_trade (h : list Order) (cid : Z) (q : list ptr) : Prop :=
  Forall (fun x => forall o, h !! x = Some o -> getClientId o <> cid) q.

(** the fields of an order that identify it and link it *)
Definition identity_of (o : Order)
    : Z * Z * Side * Z * option ptr * option ptr :=
  (getOrderId o, getClientId o, getOrderSide o, getLimit o,
   getPrevOrder o, getNextOrder o).

(** [prev] pointers mirror the queue: the first order has none, every other
    order points back at its predecessor. *)
Fixpoint back_linked (h : list Order) (prev : option ptr) (q : list ptr) : Prop :=
  match q with
  | [] => True
  | x :: q' =>
      (exists o, h !! x = Some o /\ getPrevOrder o = prev) /\
      back_linked h (Some x) q'
  end.

End Engine.

Arguments OrderData : clear implicits.
Arguments Order : clear implicits.
Arguments Execution : clear implicits.
Arguments Book : clear implicits.
Arguments State : clear implicits.
Arguments outcome : clear implicits.
Arguments turn : clear implicits.

(** the shares and the value traded by a list of fills *)
Definition traded_volume (fills : list (Z * Z)) : Z :=
  foldr (fun f acc => fst f + acc) 0 fills.

Definition traded_value (fills : list (Z * Z)) : Z :=
  foldr (fun f acc => fst f * snd f + acc) 0 fills.

(** a fill of a positive volume whose value fits an [int] *)
Definition fill_ok (f : Z * Z) : Prop :=
  0 < fst f /\ in_range (fst f * snd f).

(** ** Sample books

    Concrete states with [avgPrice] an [int]; clients, prices and sizes are
    those of the scenarios of the specification. *)

Module Sample.

Definition order (id client shares' : Z) (prev next : option ptr) : Order Z :=
  mkOrder id client Buy 100 shares' 0 0 prev next.

Definition intent (client shares' : Z) : OrderData Z :=
  mkOrderData client Sell 100 shares' 0 0.

Definition empty_book : Book Z := mkBook "SYM" 1 ∅ [].

(** one resting bid: client 1, 5 shares, order id 7 *)
Definition one_bid : State Z :=
  mkState [order 7 1 5 None None]
          (mkLimit 100 1 5 (Some 0%nat) (Some 0%nat))
          (mkBook "SYM" 1 {[ 7 := 0%nat ]} []).

(** two resting bids: client 1 with 2 shares, then client 2 with 3 *)
Definition two_bids : State Z :=
  mkState [order 7 1 2 None (Some 1%nat); order 8 2 3 (Some 0%nat) None]
          (mkLimit 100 2 5 (Some 0%nat) (Some 1%nat))
          (mkBook "SYM" 1 {[ 7 := 0%nat; 8 := 1%nat ]} []).

(** one resting bid of 100000 shares at the price 100000, and the sell
    of as many shares by another client; nothing executed yet on either *)
Definition big_order {P : Type} {PA : PriceArith P} : Order P :=
  mkOrder 7 1 Buy 100000 100000 0 (of_int 0) None None.

Definition big_intent {P : Type} {PA : PriceArith P} : OrderData P :=
  mkOrderData 2 Sell 100000 100000 0 (of_int 0).

Definition big_bid {P : Type} {PA : PriceArith P} : State P :=
  mkState [big_order] (mkLimit 100000 1 100000 (Some 0%nat) (Some 0%nat))
          (mkBook "SYM" 1 {[ 7 := 0%nat ]} []).

(** a price level with one resting ask of one share *)
Definition one_ask (price : Z) : State Z :=
  mkState [mkOrder 7 1 Sell price 1 0 0 None None]
          (mkLimit price 1 1 (Some 0%nat) (Some 0%nat))
          (mkBook "SYM" 1 {[ 7 := 0%nat ]} []).

(** an empty price level *)
Definition no_bid : State Z :=
  mkState [] (newLimit 100) empty_book.

End Sample.

(** * Properties *)

(** ** Conversions that leave a value unchanged *)

Lemma to_int_id z : in_range z -> to_int z = z.
Proof.
  unfold in_range, int_min, int_max, to_int. intros Hz.
  rewrite Z.mod_small; lia.
Qed.

Lemma to_unsigned_id z : 0 <= z <= int_max -> to_unsigned z = z.
Proof.
  unfold int_max, to_unsigned. intros Hz. apply Z.mod_small. lia.
Qed.

Lemma to_int_sub_unsigned_l a b :
  to_int (to_unsigned a - b) = to_int (a - b).
Proof.
  unfold to_int, to_unsigned. f_equal.
  replace (a mod 2 ^ 32 - b + 2 ^ 31) with (a mod 2 ^ 32 + (2 ^ 31 - b)) by lia.
  rewrite Zplus_mod_idemp_l. f_equal. lia.
Qed.

Section Properties.

Context {P : Type} {PA : PriceArith P}.

Implicit Types (o m : Order P) (t : OrderData P) (st : State P)
  (h : list (Order P)) (q : list ptr) (p x : ptr) (e : Execution P).

(** ** One fill *)

(** [logExecution] without conversions: its four [int] results are
    representable. *)
Lemma logExecution_exact v id t p st o :
  store st !! p = Some o ->
  in_range (shares t - v) -> in_range (getShares o - v) ->
  in_range (getExecutedQuantity o + v) ->
  in_range (executedQuantity t + v) ->
  logExecution v id t p st =
  Some (taker_filled v o t,
        mkState (<[p := maker_filled v o]> (store st)) (lim st)
                (book_filled (fill_execution v id o t (book st)) (book st))).
Proof.
  intros Hp Ht Hm Hcm Hct. unfold logExecution. rewrite Hp.
  rewrite !(to_int_id _ Ht), !(to_int_id _ Hm), !(to_int_id _ Hcm),
    !(to_int_id _ Hct).
  reflexivity.
Qed.

(** the executed volume of a turn *)
Lemma volume_exact o t :
  resting o -> 0 <= shares t <= int_max ->
  to_unsigned (Z.min (getShares o) (shares t)) = Z.min (getShares o) (shares t)
  /\ to_int (Z.min (getShares o) (shares t)) = Z.min (getShares o) (shares t).
Proof.
  intros (Ho & Hc & Hs) Ht. split.
  - apply to_unsigned_id. lia.
  - apply to_int_id. unfold in_range, int_min, int_max in *. lia.
Qed.

(** A turn that uses up the maker: the taker has at least the maker's
    shares. *)
Lemma fill_body_full id cid p t st o :
  store st !! p = Some o ->
  cid <> getClientId o ->
  resting o -> intent_ok t ->
  getShares o <= shares t ->
  getShares o <= totalVolume (lim st) <= int_max ->
  fill_body id cid p t st =
  Next (getNextOrder o)
       (setTakerShares (shares t - getShares o) (taker_filled (getShares o) o t))
       (mkState (<[p := maker_filled (getShares o) o]> (store st))
                (setHeadOrder (getNextOrder o)
                   (decreaseSize
                      (setTotalVolume (totalVolume (lim st) - getShares o) (lim st))))
                (book_filled (fill_execution (getShares o) id o t (book st))
                             (book st))).
Proof.
  intros Hp Hc Ho Ht Hle Htv. unfold fill_body. rewrite Hp.
  destruct (Z.eqb_spec cid (getClientId o)); [done|].
  destruct (volume_exact o t Ho) as [Hu Hi].
  { destruct Ht as (? & ? & ?). lia. }
  rewrite Hu, Hi, Z.min_l by lia.
  destruct Ho as (Ho1 & Ho2 & Ho3), Ht as (Ht1 & Ht2 & Ht3).
  unfold int_max in *.
  rewrite (logExecution_exact _ _ _ _ _ o Hp);
    [|unfold in_range, int_min, int_max; lia ..].
  cbn [store lim book].
  rewrite (to_unsigned_id (getShares o)) by (unfold int_max; lia).
  rewrite Z.leb_refl.
  rewrite list_lookup_insert_eq by (eapply lookup_lt_Some; eassumption).
  rewrite to_int_sub_unsigned_l.
  rewrite !to_int_id by (cbn; unfold in_range, int_min, int_max; lia).
  reflexivity.
Qed.

(** A turn that uses up the taker: the maker has more shares than the
    taker. *)
Lemma fill_body_partial id cid p t st o :
  store st !! p = Some o ->
  cid <> getClientId o ->
  resting o -> intent_ok t ->
  shares t < getShares o ->
  getShares o <= totalVolume (lim st) <= int_max ->
  fill_body id cid p t st =
  Next (Some p)
       (setTakerShares 0 (taker_filled (shares t) o t))
       (mkState (<[p := setShares (getShares o - shares t)
                          (maker_filled (shares t) o)]> (store st))
                (setTotalVolume (totalVolume (lim st) - shares t) (lim st))
                (book_filled (fill_execution (shares t) id o t (book st))
                             (book st))).
Proof.
  intros Hp Hc Ho Ht Hlt Htv. unfold fill_body. rewrite Hp.
  destruct (Z.eqb_spec cid (getClientId o)); [done|].
  destruct (volume_exact o t Ho) as [Hu Hi].
  { destruct Ht as (? & ? & ?). lia. }
  rewrite Hu, Hi, Z.min_r by lia.
  destruct Ho as (Ho1 & Ho2 & Ho3), Ht as (Ht1 & Ht2 & Ht3).
  unfold int_max in *.
  rewrite (logExecution_exact _ _ _ _ _ o Hp);
    [|unfold in_range, int_min, int_max; lia ..].
  cbn [store lim book].
  rewrite (to_unsigned_id (getShares o)) by (unfold int_max; lia).
  destruct (Z.leb_spec (getShares o) (shares t)); [lia|].
  rewrite !to_int_sub_unsigned_l.
  cbn [shares taker_filled].
  rewrite !to_int_id by (unfold in_range, int_min, int_max; lia).
  rewrite Z.sub_diag.
  f_equal. f_equal.
  apply list_eq. intros i.
  rewrite list_lookup_alter, !list_lookup_insert.
  pose proof (lookup_lt_Some _ _ _ Hp) as Hlen.
  repeat case_decide; try lia; subst; try done.
Qed.

(** ** The chain of [next] pointers *)

Lemma is_queue_links h h' po q :
  (forall x, getNextOrder <$> (h' !! x) = getNextOrder <$> (h !! x)) ->
  is_queue h po q -> is_queue h' po q.
Proof.
  intros Hl. revert po. induction q as [|y q IH]; intros po; cbn; [done|].
  intros (-> & o & Ho & Hq). split; [done|].
  specialize (Hl y). rewrite Ho in Hl. cbn in Hl.
  destruct (h' !! y) as [o'|] eqn:Ho'; [|done].
  cbn in Hl. exists o'. split; [done|].
  apply IH. congruence.
Qed.

Lemma is_queue_functional h po q1 q2 :
  is_queue h po q1 -> is_queue h po q2 -> q1 = q2.
Proof.
  revert po q2. induction q1 as [|y q1 IH]; intros po [|z q2]; cbn.
  - done.
  - intros -> (? & _). done.
  - intros (-> & _) ?. done.
  - intros (-> & o & Ho & Hq1) (Hz & o' & Ho' & Hq2).
    injection Hz as <-. rewrite Ho in Ho'. injection Ho' as <-.
    f_equal. eapply IH; eassumption.
Qed.

Lemma is_queue_app h po q1 q2 :
  is_queue h po (q1 ++ q2) -> exists po', is_queue h po' q2.
Proof.
  revert po. induction q1 as [|y q1 IH]; intros po; cbn.
  - eauto.
  - intros (_ & o & _ & Hq). eauto.
Qed.

Lemma is_queue_head_fresh h y q :
  is_queue h (Some y) (y :: q) -> y ∉ q.
Proof.
  intros Hq Hin.
  apply list_elem_of_split in Hin as (q1 & q2 & ->).
  pose proof Hq as (_ & o & _ & Hq').
  apply is_queue_app in Hq' as (po' & Hq').
  pose proof Hq' as (-> & _).
  pose proof (is_queue_functional _ _ _ _ Hq Hq') as Heq.
  apply (f_equal length) in Heq. cbn in Heq.
  rewrite length_app in Heq. cbn in Heq. lia.
Qed.

Lemma queue_volume_cons h y q :
  queue_volume h (y :: q) = shares_at h y + queue_volume h q.
Proof. reflexivity. Qed.

Lemma queue_volume_frame h h' q :
  (forall x, x ∈ q -> h' !! x = h !! x) ->
  queue_volume h' q = queue_volume h q.
Proof.
  induction q as [|y q IH]; intros Hf; [done|].
  rewrite !queue_volume_cons, IH.
  - unfold shares_at. rewrite Hf; [done|]. left.
  - intros x Hx. apply Hf. by right.
Qed.

Lemma queue_volume_shares h h' q :
  (forall x, x ∈ q -> shares_at h' x = shares_at h x) ->
  queue_volume h' q = queue_volume h q.
Proof.
  induction q as [|y q IH]; intros Hf; [done|].
  rewrite !queue_volume_cons, IH.
  - rewrite Hf; [done|]. left.
  - intros x Hx. apply Hf. by right.
Qed.

Lemma queue_volume_nonneg h q :
  all_resting h q -> 0 <= queue_volume h q.
Proof.
  induction 1 as [|y q (o & Ho & Hr & _) _ IH]; [done|].
  rewrite queue_volume_cons. unfold shares_at. rewrite Ho. cbn. lia.
Qed.

Lemma all_resting_frame h h' q :
  (forall x, x ∈ q -> h' !! x = h !! x) ->
  all_resting h q -> all_resting h' q.
Proof.
  unfold all_resting. rewrite !Forall_forall. intros Hf Hr x Hx.
  rewrite Hf by done. by apply Hr.
Qed.

(** ** The loop invariant through one turn *)

Lemma walk_inv_cons_inv nxt t st y q :
  walk_inv nxt t st (y :: q) ->
  nxt = Some y /\
  exists o, store st !! y = Some o /\ resting o /\
    is_queue (store st) (getNextOrder o) q /\ (y ∉ q) /\
    totalVolume (lim st) = getShares o + queue_volume (store st) q /\
    0 <= queue_volume (store st) q /\
    size (lim st) = Z.of_nat (S (length q)) /\
    all_resting (store st) q.
Proof.
  intros (Hh & (Hq & Hsz & Htv) & Hr & _).
  pose proof (Forall_inv Hr) as (o & Ho & Hres).
  pose proof (Forall_inv_tail Hr) as Hr'.
  rewrite Hh in Hq. pose proof Hq as (-> & o' & Ho' & Hq').
  rewrite Ho in Ho'. injection Ho' as <-.
  split; [done|]. exists o. split_and!; try done.
  - eapply is_queue_head_fresh; eassumption.
  - rewrite Htv, queue_volume_cons. unfold shares_at. by rewrite Ho.
  - by apply queue_volume_nonneg.
Qed.

Lemma insert_links h y o o' :
  h !! y = Some o -> getNextOrder o' = getNextOrder o ->
  forall x, getNextOrder <$> (<[y := o']> h !! x) = getNextOrder <$> (h !! x).
Proof.
  intros Ho Hn x. destruct (decide (y = x)) as [<-|Hne].
  - rewrite list_lookup_insert_eq by (eapply lookup_lt_Some; eassumption).
    rewrite Ho. cbn. by f_equal.
  - by rewrite list_lookup_insert_ne.
Qed.

Lemma insert_frame h y o' q :
  y ∉ q -> forall x, x ∈ q -> <[y := o']> h !! x = h !! x.
Proof.
  intros Hy x Hx. apply list_lookup_insert_ne. intros ->. done.
Qed.

(** A turn that uses up the maker at the head of the queue. *)
Lemma full_turn_inv id cid t st y q o :
  walk_inv (Some y) t st (y :: q) ->
  store st !! y = Some o ->
  cid <> getClientId o ->
  getShares o <= shares t ->
  exists t1 st1,
    fill_body id cid y t st = Next (getNextOrder o) t1 st1 /\
    walk_inv (getNextOrder o) t1 st1 q /\
    shares t1 = shares t - getShares o /\
    store st1 = <[y := maker_filled (getShares o) o]> (store st) /\
    book st1 = book_filled (fill_execution (getShares o) id o t (book st)) (book st) /\
    tailOrder (lim st1) = tailOrder (lim st).
Proof.
  intros Hw Ho Hc Hle.
  pose proof (walk_inv_cons_inv _ _ _ _ _ Hw)
    as (_ & o' & Ho' & Hres & Hq & Hfresh & Htv & Hvol & Hsz & Hrest).
  rewrite Ho in Ho'. injection Ho' as <-.
  destruct Hw as (Hh & _ & _ & Hint & Hmax & Hsmax).
  eexists _, _. split; [|split].
  - apply fill_body_full; try done. lia.
  - pose proof Hres as (Hr1 & Hr2 & Hr3). pose proof Hint as (Hi1 & Hi2 & Hi3).
    unfold walk_inv, limit_inv. cbn [store lim book].
    split_and!.
    + done.
    + eapply is_queue_links; [|exact Hq].
      intros x. symmetry. rewrite (insert_links _ y o); done.
    + unfold decreaseSize. cbn [size setTotalVolume].
      destruct (Z.ltb_spec 0 (size (lim st))); [|lia].
      cbn. rewrite to_int_id; [lia|].
      unfold in_range, int_min, int_max in *. lia.
    + unfold decreaseSize. cbn [size setTotalVolume].
      destruct (Z.ltb_spec 0 (size (lim st))); cbn;
        rewrite (queue_volume_frame (store st)) by (by apply insert_frame); lia.
    + eapply all_resting_frame; [|exact Hrest]. by apply insert_frame.
    + unfold intent_ok. cbn. lia.
    + unfold decreaseSize. cbn [size setTotalVolume].
      destruct (Z.ltb_spec 0 (size (lim st))); cbn; lia.
    + unfold decreaseSize. cbn [size setTotalVolume].
      destruct (Z.ltb_spec 0 (size (lim st))); [|cbn; lia].
      cbn. rewrite to_int_id; [lia|].
      unfold in_range, int_min, int_max in *. lia.
  - cbn. split_and!; try done.
    unfold decreaseSize. cbn [size setTotalVolume].
    by destruct (Z.ltb_spec 0 (size (lim st))).
Qed.

(** A turn that uses up the taker and leaves the maker at the head. *)
Lemma partial_turn_inv id cid t st y q o :
  walk_inv (Some y) t st (y :: q) ->
  store st !! y = Some o ->
  cid <> getClientId o ->
  shares t < getShares o ->
  exists t1 st1,
    fill_body id cid y t st = Next (Some y) t1 st1 /\
    walk_inv (Some y) t1 st1 (y :: q) /\
    shares t1 = 0 /\
    store st1 = <[y := setShares (getShares o - shares t)
                          (maker_filled (shares t) o)]> (store st) /\
    book st1 = book_filled (fill_execution (shares t) id o t (book st)) (book st) /\
    tailOrder (lim st1) = tailOrder (lim st).
Proof.
  intros Hw Ho Hc Hlt.
  pose proof (walk_inv_cons_inv _ _ _ _ _ Hw)
    as (_ & o' & Ho' & Hres & Hq & Hfresh & Htv & Hvol & Hsz & Hrest).
  rewrite Ho in Ho'. injection Ho' as <-.
  destruct Hw as (Hh & (_ & Hsize & _) & _ & Hint & Hmax & Hsmax).
  pose proof (lookup_lt_Some _ _ _ Ho) as Hlen.
  eexists _, _. split; [|split].
  - apply fill_body_partial; try done. lia.
  - pose proof Hres as (Hr1 & Hr2 & Hr3). pose proof Hint as (Hi1 & Hi2 & Hi3).
    unfold walk_inv, limit_inv. cbn [store lim book].
    split_and!; try done.
    + cbn. split; [done|].
      eexists. split; [by apply list_lookup_insert_eq|].
      cbn [getNextOrder setShares maker_filled setExecutedQuantity setAvgPrice].
      eapply is_queue_links; [|exact Hq].
      intros x. symmetry. rewrite (insert_links _ y o); done.
    + cbn [totalVolume setTotalVolume]. rewrite queue_volume_cons.
      rewrite (queue_volume_frame (store st)) by (by apply insert_frame).
      unfold shares_at. rewrite list_lookup_insert_eq by done. cbn. lia.
    + constructor.
      * eexists. split; [by apply list_lookup_insert_eq|].
        unfold resting. cbn. lia.
      * eapply all_resting_frame; [|exact Hrest]. by apply insert_frame.
    + unfold intent_ok. cbn. lia.
    + cbn. lia.
  - cbn. done.
Qed.

(** ** What any turn leaves alone

    No invariant is assumed here: a turn that completes appends exactly
    one execution and touches neither the order index nor [tailOrder]. *)
Lemma fill_body_frame id cid p t st nxt t' st' :
  fill_body id cid p t st = Next nxt t' st' ->
  exists o e,
    store st !! p = Some o /\ cid <> getClientId o /\
    appended st st' [e] /\
    makerOrderId e = getOrderId o /\
    clientIdArg11 e = clientId t /\
    clientIdArg12 e = getClientId o /\
    allOrders (book st') = allOrders (book st) /\
    tailOrder (lim st') = tailOrder (lim st) /\
    clientId t' = clientId t.
Proof.
  unfold fill_body, logExecution.
  destruct (store st !! p) as [o|] eqn:Ho; [|done].
  destruct (Z.eqb_spec cid (getClientId o)) as [|Hne]; [done|].
  cbn [getNextExecutionId store lim book].
  intros Hb. exists o.
  destruct (to_unsigned (getShares o) <=? _) in Hb.
  - destruct (_ !! p) in Hb; [|done].
    injection Hb as <- <- <-. eexists. unfold appended. cbn.
    split_and!; try done.
    unfold decreaseSize. cbn. by destruct (0 <? size (lim st)).
  - injection Hb as <- <- <-. eexists. unfold appended. cbn.
    split_and!; done.
Qed.

(** ** Turns and the loop *)

Lemma fill_turns_loop k fuel id cid nxt t st nxt' t' st' :
  fill_turns k id cid nxt t st = Some (nxt', t', st') ->
  fill_loop (k + fuel) id cid nxt t st = fill_loop fuel id cid nxt' t' st'.
Proof.
  revert nxt t st. induction k as [|k IH]; intros nxt t st; cbn.
  - by intros [= -> -> ->].
  - destruct nxt as [p|]; [|done].
    destruct (fill_guard _ _ _); [|done].
    destruct (fill_body _ _ _ _ _) as [n1 t1 st1| |]; [|done..].
    apply IH.
Qed.

Lemma fill_turns_appended k id cid nxt t st nxt' t' st' :
  fill_turns k id cid nxt t st = Some (nxt', t', st') ->
  exists es, appended st st' es /\ length es = k.
Proof.
  revert nxt t st. induction k as [|k IH]; intros nxt t st; cbn.
  - intros [= -> -> ->]. exists []. unfold appended.
    by rewrite app_nil_r.
  - destruct nxt as [p|]; [|done].
    destruct (fill_guard _ _ _); [|done].
    destruct (fill_body _ _ _ _ _) as [n1 t1 st1| |] eqn:Hb; [|done..].
    intros Hk. apply IH in Hk as (es & Hes & Hlen).
    apply fill_body_frame in Hb as (o & e & _ & _ & He & _).
    exists (e :: es). split; [|cbn; lia].
    unfold appended in *. rewrite Hes, He, <- app_assoc. done.
Qed.

Lemma matched_ids h h' e x :
  (forall z, getOrderId <$> (h' !! z) = getOrderId <$> (h !! z)) ->
  matched h' e x -> matched h e x.
Proof.
  intros Hid (o & Ho & Hm & Hs). specialize (Hid x).
  rewrite Ho in Hid. destruct (h !! x) as [o'|] eqn:Ho'; [|done].
  cbn in Hid. exists o'. split_and!; [done| congruence | done].
Qed.

Lemma insert_ids h y o o' :
  h !! y = Some o -> getOrderId o' = getOrderId o ->
  forall x, getOrderId <$> (<[y := o']> h !! x) = getOrderId <$> (h !! x).
Proof.
  intros Ho Hn x. destruct (decide (y = x)) as [<-|Hne].
  - rewrite list_lookup_insert_eq by (eapply lookup_lt_Some; eassumption).
    rewrite Ho. cbn. by f_equal.
  - by rewrite list_lookup_insert_ne.
Qed.

Lemma fill_guard_true nxt t st :
  fill_guard nxt t st = true <->
  nxt <> None /\ size (lim st) <> 0 /\ shares t <> 0.
Proof.
  unfold fill_guard. rewrite !andb_true_iff, !negb_true_iff, !Z.eqb_neq.
  rewrite bool_decide_eq_true. tauto.
Qed.

(** The walk of [processFill] over a well-formed queue [q]: after [n]
    makers are used up the loop returns or throws; the executions are
    against the first orders of [q], in order. *)
Lemma walk_spec id cid q : forall fuel nxt t st,
  walk_inv nxt t st q -> (length q <= fuel)%nat ->
  exists n es t' st',
    walk_inv (headOrder (lim st')) t' st' (drop n q) /\
    appended st st' es /\
    Forall2 (matched (store st)) es (take (length es) q) /\
    (length es = n \/ (length es = S n /\ shares t' = 0)) /\
    allOrders (book st') = allOrders (book st) /\
    tailOrder (lim st') = tailOrder (lim st) /\
    ((fill_loop fuel id cid nxt t st = Returned t' st' /\
      (shares t' = 0 \/ drop n q = [])) \/
     (fill_loop fuel id cid nxt t st = Thrown t' st' /\ shares t' <> 0 /\
      exists x o, head (drop n q) = Some x /\ store st' !! x = Some o /\
                  getClientId o = cid)).
Proof.
  induction q as [|y q IH]; intros fuel nxt t st Hw Hfuel.
  - pose proof Hw as (Hh & (Hq & _) & _). cbn in Hq.
    assert (nxt = None) as -> by congruence.
    exists 0%nat, [], t, st. unfold appended. rewrite app_nil_r. cbn.
    split_and!; try done; [by rewrite Hh|left; done|].
    left. split; [by destruct fuel|by right].
  - pose proof (walk_inv_cons_inv _ _ _ _ _ Hw)
      as (-> & o & Ho & Hres & Hq & Hfresh & Htv & Hvol & Hsz & Hrest).
    pose proof Hw as (Hh & _ & _ & Hint & _).
    destruct (decide (shares t = 0)) as [Hz|Hnz].
    { exists 0%nat, [], t, st. unfold appended. rewrite app_nil_r. cbn.
      split_and!; try done; [by rewrite Hh|left; done|].
      left. split; [|by left].
      destruct fuel; cbn; unfold fill_guard; rewrite Hz; cbn;
        by rewrite !andb_false_r. }
    assert (fill_guard (Some y) t st = true) as Hg.
    { apply fill_guard_true. split_and!; [done|lia|done]. }
    destruct fuel as [|fuel]; [cbn in Hfuel; lia|].
    cbn [fill_loop]. rewrite Hg.
    destruct (decide (cid = getClientId o)) as [Hc|Hc].
    { exists 0%nat, [], t, st. unfold appended. rewrite app_nil_r. cbn.
      split_and!; try done; [by rewrite Hh|left; done|].
      right. split_and!; [|done|by exists y, o].
      unfold fill_body. rewrite Ho. by destruct (Z.eqb_spec cid (getClientId o)). }
    destruct (Z.le_gt_cases (getShares o) (shares t)) as [Hle|Hgt].
    + destruct (full_turn_inv id cid t st y q o Hw Ho Hc Hle)
        as (t1 & st1 & Hb & Hw1 & Hs1 & Hst1 & Hbk1 & Htl1).
      rewrite Hb.
      destruct (IH fuel _ _ _ Hw1) as (n & es & t' & st' & Hw' & Hes & Hm & Hlen & Hall & Htl & Hout).
      { cbn in Hfuel. lia. }
      exists (S n), (fill_execution (getShares o) id o t (book st) :: es), t', st'.
      cbn [drop length take].
      split_and!; try done.
      * unfold appended in *. rewrite Hes, Hbk1. cbn. by rewrite <- app_assoc.
      * constructor.
        -- exists o. destruct Hres as (? & _). cbn. done.
        -- eapply Forall2_impl; [exact Hm|].
           intros e x. apply matched_ids. rewrite Hst1.
           intros z. by rewrite (insert_ids _ y o).
      * destruct Hlen as [Hlen|[Hlen Hz]]; [left|right]; cbn; lia.
      * rewrite Hall, Hbk1. done.
      * congruence.
    + destruct (partial_turn_inv id cid t st y q o Hw Ho Hc Hgt)
        as (t1 & st1 & Hb & Hw1 & Hs1 & Hst1 & Hbk1 & Htl1).
      rewrite Hb.
      exists 0%nat, [fill_execution (shares t) id o t (book st)], t1, st1.
      cbn [drop length take].
      pose proof Hw1 as (Hh1 & _).
      split_and!; try done.
      * by rewrite Hh1.
      * unfold appended. by rewrite Hbk1.
      * constructor; [|constructor].
        exists o. destruct Hint as (? & _). cbn. split_and!; [done..|lia].
      * by right.
      * by rewrite Hbk1.
      * left. split; [|by left].
        destruct fuel; cbn; unfold fill_guard; rewrite Hs1; cbn;
          by rewrite !andb_false_r.
Qed.

Lemma take_elem_of (q : list ptr) n x : x ∈ take n q -> x ∈ q.
Proof.
  intros Hx. rewrite <- (take_drop n q). apply elem_of_app. by left.
Qed.

(** The walk of [processFill] against the walk of the specification: the
    sizes of the executions and the number of makers used up are those of
    [fifo_walk] on the shares of the queue, up to the order of the
    taker's own client when the call throws. *)
Lemma walk_fifo id cid q : forall fuel nxt t st,
  walk_inv nxt t st q -> (length q <= fuel)%nat ->
  exists n es t' st',
    walk_inv (headOrder (lim st')) t' st' (drop n q) /\
    appended st st' es /\
    Forall2 (matched (store st)) es (take (length es) q) /\
    shares t' = shares t - executed_volume es /\
    ((fill_loop fuel id cid nxt t st = Returned t' st' /\
      (execSize <$> es, n) = fifo_walk (shares t) (shares_at (store st) <$> q) /\
      (shares t' = 0 \/ drop n q = [])) \/
     (fill_loop fuel id cid nxt t st = Thrown t' st' /\
      (execSize <$> es, n)
        = fifo_walk (shares t) (shares_at (store st) <$> take n q) /\
      shares t' <> 0 /\
      exists x o, head (drop n q) = Some x /\ store st !! x = Some o /\
                  getClientId o = cid)).
Proof.
  induction q as [|y q IH]; intros fuel nxt t st Hw Hfuel.
  - pose proof Hw as (Hh & (Hq & _) & _). cbn in Hq.
    assert (nxt = None) as -> by congruence.
    exists 0%nat, [], t, st. unfold appended. rewrite app_nil_r. cbn.
    split_and!; [by rewrite Hh|done|done|lia|].
    left. split_and!; [by destruct fuel|done|by right].
  - pose proof (walk_inv_cons_inv _ _ _ _ _ Hw)
      as (-> & o & Ho & Hres & Hq & Hfresh & Htv & Hvol & Hsz & Hrest).
    pose proof Hw as (Hh & _ & _ & Hint & Hmax & _).
    assert (shares_at (store st) y = getShares o) as Hsy
      by (unfold shares_at; by rewrite Ho).
    destruct (decide (shares t = 0)) as [Hz|Hnz].
    { exists 0%nat, [], t, st. unfold appended. rewrite app_nil_r.
      cbn [drop length take fmap list_fmap executed_volume foldr fifo_walk].
      rewrite Hz. cbn [Z.eqb].
      split_and!; [by rewrite Hh|done|done|lia|].
      left. split_and!; [|done|by left].
      destruct fuel; cbn; unfold fill_guard; rewrite Hz; cbn;
        by rewrite !andb_false_r. }
    assert (fill_guard (Some y) t st = true) as Hg.
    { apply fill_guard_true. split_and!; [done|lia|done]. }
    destruct fuel as [|fuel]; [cbn in Hfuel; lia|].
    cbn [fill_loop]. rewrite Hg.
    destruct (decide (cid = getClientId o)) as [Hc|Hc].
    { exists 0%nat, [], t, st. unfold appended. rewrite app_nil_r.
      cbn [drop length take fmap list_fmap executed_volume foldr fifo_walk].
      split_and!; [by rewrite Hh|done|done|lia|].
      right. split_and!; [|done|done|by exists y, o].
      unfold fill_body. rewrite Ho. by destruct (Z.eqb_spec cid (getClientId o)). }
    assert (forall rem (r : list ptr) h',
              (forall x, x <> y -> h' !! x = store st !! x) ->
              (forall x, x ∈ r -> x ∈ q) ->
              fifo_walk rem (shares_at h' <$> r)
              = fifo_walk rem (shares_at (store st) <$> r)) as Hframe.
    { intros rem r h' Hne Hin. f_equal. apply list_fmap_ext.
      intros i x Hx. unfold shares_at. rewrite Hne; [done|].
      intros ->. apply Hfresh, Hin. eapply list_elem_of_lookup_2, Hx. }
    destruct (Z.le_gt_cases (getShares o) (shares t)) as [Hle|Hgt].
    + destruct (full_turn_inv id cid t st y q o Hw Ho Hc Hle)
        as (t1 & st1 & Hb & Hw1 & Hs1 & Hst1 & Hbk1 & _).
      rewrite Hb.
      destruct (IH fuel _ _ _ Hw1)
        as (n & es & t' & st' & Hw' & Hes & Hm & Hsh & Hout).
      { cbn in Hfuel. lia. }
      assert (forall x, x <> y -> store st1 !! x = store st !! x) as Hne.
      { intros x Hx. rewrite Hst1. by apply list_lookup_insert_ne. }
      exists (S n), (fill_execution (getShares o) id o t (book st) :: es), t', st'.
      cbn [drop length take fmap list_fmap fifo_walk].
      rewrite Hsy.
      destruct (Z.eqb_spec (shares t) 0) as [|_]; [done|].
      destruct (Z.leb_spec (getShares o) (shares t)) as [_|]; [|lia].
      split_and!.
      * done.
      * unfold appended in *. rewrite Hes, Hbk1. cbn. by rewrite <- app_assoc.
      * constructor.
        -- exists o. destruct Hres as (? & _). cbn. done.
        -- eapply Forall2_impl; [exact Hm|].
           intros e x. apply matched_ids. rewrite Hst1.
           intros z. by rewrite (insert_ids _ y o).
      * rewrite Hsh, Hs1. unfold executed_volume. cbn. lia.
      * destruct Hout as [(Hr & Hfw & Hstop)|(Hr & Hfw & Hnz' & x & o' & Hx & Ho' & Hcl)];
          [left|right].
        -- split_and!; [done| |done].
           rewrite Hs1, (Hframe _ q (store st1) Hne) in Hfw by done.
           rewrite <- Hfw. done.
        -- split_and!; [done| |done|].
           ++ rewrite Hs1, (Hframe _ (take n q) (store st1) Hne) in Hfw
                by (intros x0; apply take_elem_of).
              rewrite <- Hfw. done.
           ++ exists x, o'. split_and!; [done| |done].
              rewrite <- Hne; [done|].
              intros ->. apply Hfresh.
              destruct (drop n q) as [|z r] eqn:Hd; [done|].
              injection Hx as ->. rewrite <- (take_drop n q), Hd.
              apply elem_of_app. right. left.
    + destruct (partial_turn_inv id cid t st y q o Hw Ho Hc Hgt)
        as (t1 & st1 & Hb & Hw1 & Hs1 & Hst1 & Hbk1 & _).
      rewrite Hb.
      exists 0%nat, [fill_execution (shares t) id o t (book st)], t1, st1.
      cbn [drop length take fmap list_fmap fifo_walk].
      rewrite Hsy.
      destruct (Z.eqb_spec (shares t) 0) as [|_]; [done|].
      destruct (Z.leb_spec (getShares o) (shares t)) as [|_]; [lia|].
      pose proof Hw1 as (Hh1 & _).
      split_and!.
      * by rewrite Hh1.
      * unfold appended. by rewrite Hbk1.
      * constructor; [|constructor].
        exists o. destruct Hint as (? & _). cbn. split_and!; [done..|lia].
      * rewrite Hs1. unfold executed_volume. cbn. lia.
      * left. split_and!; [|done|by left].
        destruct fuel; cbn; unfold fill_guard; rewrite Hs1; cbn;
          by rewrite !andb_false_r.
Qed.

(** ** The execution record of a fill *)

(** A turn that completes on a resting maker [o] fills
    [min (getShares o) (shares t)] shares: the record it appends, the
    taker it leaves and the maker it leaves in the store. *)
Lemma fill_body_fill id cid p t st o nxt t' st' :
  store st !! p = Some o ->
  resting o -> intent_ok t ->
  fill_body id cid p t st = Next nxt t' st' ->
  appended st st'
    [fill_execution (Z.min (getShares o) (shares t)) id o t (book st)] /\
  t' = setTakerShares (shares t - Z.min (getShares o) (shares t))
         (taker_filled (Z.min (getShares o) (shares t)) o t) /\
  exists o',
    store st' !! p = Some o' /\
    getExecutedQuantity o' =
      getExecutedQuantity o + Z.min (getShares o) (shares t) /\
    getAvgPrice o' =
      fill_avg (getExecutedQuantity o) (getAvgPrice o)
               (Z.min (getShares o) (shares t)) (getLimit o).
Proof.
  intros Ho Hres Hint. unfold fill_body. rewrite Ho.
  destruct (Z.eqb_spec cid (getClientId o)); [done|].
  destruct (volume_exact o t Hres) as [Hu Hi].
  { destruct Hint as (? & ? & ?). lia. }
  rewrite Hu, Hi.
  pose proof Hres as (Ho1 & Ho2 & Ho3). pose proof Hint as (Ht1 & Ht2 & Ht3).
  pose proof (lookup_lt_Some _ _ _ Ho) as Hlen.
  unfold int_max in *.
  rewrite (logExecution_exact _ _ _ _ _ o Ho);
    [|unfold in_range, int_min, int_max; lia ..].
  cbn [store lim book].
  rewrite (to_unsigned_id (getShares o)) by (unfold int_max; lia).
  destruct (Z.leb_spec (getShares o) (Z.min (getShares o) (shares t))) as [Hle|Hgt].
  - rewrite list_lookup_insert_eq by done.
    intros [= <- <- <-]. unfold appended. cbn [book store executionQueue book_filled].
    rewrite Z.min_l in * by lia.
    split_and!; [done| |].
    + cbn. rewrite to_int_id; [done|]. unfold in_range, int_min, int_max. lia.
    + eexists. split; [by apply list_lookup_insert_eq|]. done.
  - intros [= <- <- <-]. unfold appended. cbn [book store executionQueue book_filled].
    rewrite Z.min_r in * by lia.
    split_and!; [done| |].
    + cbn. rewrite to_int_sub_unsigned_l, Z.sub_diag. done.
    + eexists. split.
      * rewrite list_lookup_alter_eq, list_lookup_insert_eq by done. done.
      * done.
Qed.

(** ** Claims about the execution record *)

(** C5: the execution of a fill has [execPrice] the maker's limit price,
    [execSize] the minimum of the maker's and the taker's shares at the
    time of the fill, and the leaves quantities are the shares of each
    side minus the executed volume. *)
Theorem fill_price_size_leaves id cid p t st o nxt t' st' :
  store st !! p = Some o ->
  resting o -> intent_ok t ->
  fill_body id cid p t st = Next nxt t' st' ->
  exists e,
    appended st st' [e] /\
    execPrice e = getLimit o /\
    execSize e = Z.min (getShares o) (shares t) /\
    makerLeavesQty e = getShares o - execSize e /\
    takerLeavesQty e = shares t - execSize e.
Proof.
  intros Ho Hres Hint Hb.
  destruct (fill_body_fill _ _ _ _ _ _ _ _ _ Ho Hres Hint Hb) as (He & _).
  eexists. split; [exact He|]. cbn. done.
Qed.

(** The update of the two averages by a fill, in the arithmetic of
    [avgPrice]: the value of the fill enters as the [int] product of
    volume and price, and both divisors are cumulative quantities of at
    least the executed volume, which is positive. *)
Lemma fill_average_update id cid p t st o nxt t' st' :
  store st !! p = Some o ->
  resting o -> intent_ok t -> shares t <> 0 ->
  fill_body id cid p t st = Next nxt t' st' ->
  exists e o',
    appended st st' [e] /\ store st' !! p = Some o' /\
    0 < execSize e /\
    execSize e <= makerCumQty e /\ execSize e <= takerCumQty e /\
    makerCumQty e = getExecutedQuantity o + execSize e /\
    takerCumQty e = executedQuantity t + execSize e /\
    getExecutedQuantity o' = makerCumQty e /\
    executedQuantity t' = takerCumQty e /\
    getAvgPrice o' =
      pdiv (padd (pmul (of_int (getExecutedQuantity o)) (getAvgPrice o))
                 (of_int (to_int (execSize e * execPrice e))))
           (of_int (makerCumQty e)) /\
    avgPrice t' =
      pdiv (padd (pmul (of_int (executedQuantity t)) (avgPrice t))
                 (of_int (to_int (execSize e * execPrice e))))
           (of_int (takerCumQty e)) /\
    makerAvgPrice e = getAvgPrice o' /\
    takerAvgPrice e = avgPrice t'.
Proof.
  intros Ho Hres Hint Hnz Hb.
  destruct (fill_body_fill _ _ _ _ _ _ _ _ _ Ho Hres Hint Hb)
    as (He & -> & o' & Ho' & Hcum & Havg).
  destruct Hres as (Ho1 & Ho2 & Ho3), Hint as (Ht1 & Ht2 & Ht3).
  eexists _, o'. split; [exact He|]. split; [exact Ho'|].
  rewrite Hcum, Havg. cbn. unfold fill_avg.
  split_and!; try done; lia.
Qed.

(** A fill of 100000 shares at the price 100000: the value that enters
    both averages is the product wrapped to an [int], 1410065408, whatever
    the arithmetic of [avgPrice]. *)
Lemma big_fill :
  exists nxt t' st' o' e,
    fill_body 9 2 0%nat Sample.big_intent Sample.big_bid = Next nxt t' st' /\
    appended Sample.big_bid st' [e] /\ store st' !! 0%nat = Some o' /\
    execSize e = 100000 /\ execPrice e = 100000 /\
    getAvgPrice o'
      = pdiv (padd (pmul (of_int 0) (of_int 0)) (of_int 1410065408))
             (of_int 100000) /\
    avgPrice t' = getAvgPrice o' /\
    makerAvgPrice e = getAvgPrice o' /\ takerAvgPrice e = getAvgPrice o'.
Proof.
  assert (@resting P Sample.big_order) as Hres
    by (unfold resting, int_max; cbn; lia).
  assert (@intent_ok P Sample.big_intent) as Hint
    by (unfold intent_ok, int_max; cbn; lia).
  pose proof (fill_body_full 9 2 0%nat Sample.big_intent Sample.big_bid
                Sample.big_order eq_refl ltac:(cbn; lia) Hres Hint
                ltac:(cbn; lia) ltac:(unfold int_max; cbn; lia)) as Hb.
  destruct (fill_body_fill 9 2 0%nat Sample.big_intent Sample.big_bid
              Sample.big_order _ _ _ eq_refl Hres Hint Hb)
    as (He & Ht & o' & Ho' & Hcum & Havg).
  eexists _, _, _, o', _. split; [exact Hb|]. split; [exact He|].
  split; [exact Ho'|].
  rewrite Havg.
  cbn [execSize execPrice fill_execution makerAvgPrice takerAvgPrice
    avgPrice setTakerShares taker_filled Sample.big_order Sample.big_intent
    getShares shares getLimit getExecutedQuantity executedQuantity
    getAvgPrice].
  unfold fill_avg.
  change (Z.min 100000 100000) with 100000.
  replace (to_int (100000 * 100000)) with 1410065408
    by (vm_compute; reflexivity).
  change (0 + 100000) with 100000.
  split_and!; reflexivity.
Qed.

(** C7: the execution of a fill has [makerExecType = FullFill] exactly
    when the executed volume is the maker's shares before the fill, and
    [takerExecType = FullFill] exactly when the taker has no shares after
    the fill; the type is [PartialFill] otherwise. *)
Theorem fill_exec_types id cid p t st o nxt t' st' :
  store st !! p = Some o ->
  resting o -> intent_ok t ->
  fill_body id cid p t st = Next nxt t' st' ->
  exists e,
    appended st st' [e] /\
    (makerExecType e = FullFill <-> execSize e = getShares o) /\
    (makerExecType e = PartialFill <-> execSize e <> getShares o) /\
    (takerExecType e = FullFill <-> shares t' = 0) /\
    (takerExecType e = PartialFill <-> shares t' <> 0).
Proof.
  intros Ho Hres Hint Hb.
  destruct (fill_body_fill _ _ _ _ _ _ _ _ _ Ho Hres Hint Hb) as (He & -> & _).
  eexists. split; [exact He|]. cbn.
  destruct (Z.eqb_spec (Z.min (getShares o) (shares t)) (getShares o));
    destruct (Z.eqb_spec (shares t - Z.min (getShares o) (shares t)) 0);
    split_and!; split; try done; try lia.
Qed.

(** ** Claims about the walk of [processFill] *)


(** C3: when, after [k] turns of a call of [processFill], the next
    resting order has the client id of the taker, the call throws with
    the taker and the state exactly as those [k] turns left them: the
    turn of the self-trade appends no execution and changes nothing, and
    the [k] executions of the earlier turns stay in the queue. *)
Theorem processFill_self_trade k fuel t id st p t_k st_k o :
  fill_turns k id (clientId t) (headOrder (lim st)) t st
    = Some (Some p, t_k, st_k) ->
  fill_guard (Some p) t_k st_k = true ->
  store st_k !! p = Some o ->
  getClientId o = clientId t ->
  processFill (k + S fuel) t id st = Thrown t_k st_k /\
  exists es, appended st st_k es /\ length es = k.
Proof.
  intros Hk Hg Ho Hc. split.
  - unfold processFill. rewrite (fill_turns_loop _ _ _ _ _ _ _ _ _ _ Hk).
    cbn [fill_loop]. rewrite Hg. unfold fill_body. rewrite Ho, Hc.
    by rewrite Z.eqb_refl.
  - eapply fill_turns_appended, Hk.
Qed.

(** ** Termination *)

(** A turn that completes keeps all [next] pointers, and either moves to
    the successor of the current order or leaves the taker without
    shares. *)
Lemma fill_body_progress id cid p t st o nxt t' st' :
  store st !! p = Some o ->
  fill_body id cid p t st = Next nxt t' st' ->
  (forall x, getNextOrder <$> (store st' !! x) = getNextOrder <$> (store st !! x)) /\
  (nxt = getNextOrder o \/ (nxt = Some p /\ shares t' = 0)).
Proof.
  intros Ho. unfold fill_body, logExecution. rewrite Ho.
  pose proof (lookup_lt_Some _ _ _ Ho) as Hlen.
  destruct (Z.eqb_spec cid (getClientId o)); [done|].
  cbn [getNextExecutionId store lim book].
  destruct (Z.leb_spec (to_unsigned (getShares o))
              (to_unsigned (Z.min (getShares o) (shares t)))) as [Hle|Hgt].
  - rewrite list_lookup_insert_eq by done.
    intros [= <- <- <-]. cbn [store]. split; [|by left].
    eapply insert_links; [exact Ho|done].
  - intros [= <- <- <-]. cbn [store shares setTakerShares]. split.
    + intros x. destruct (decide (p = x)) as [<-|Hne].
      * rewrite list_lookup_alter_eq, list_lookup_insert_eq, Ho by done. done.
      * rewrite list_lookup_alter_ne, list_lookup_insert_ne by done. done.
    + right. split; [done|].
      destruct (Z.min_spec (getShares o) (shares t)) as [[_ Hmin]|[_ Hmin]];
        rewrite Hmin in *; [lia|].
      rewrite Z.sub_diag. done.
Qed.

Lemma fill_body_no_fault id cid p t st o :
  store st !! p = Some o -> fill_body id cid p t st <> Fault.
Proof.
  intros Ho. unfold fill_body, logExecution. rewrite Ho.
  pose proof (lookup_lt_Some _ _ _ Ho) as Hlen.
  destruct (Z.eqb_spec cid (getClientId o)); [done|].
  cbn [getNextExecutionId store lim book].
  destruct (_ <=? _); [|done].
  rewrite list_lookup_insert_eq by done. done.
Qed.

Lemma fill_loop_terminates id cid q : forall fuel nxt t st,
  is_queue (store st) nxt q -> (length q <= fuel)%nat ->
  exists t' st',
    fill_loop fuel id cid nxt t st = Returned t' st' \/
    fill_loop fuel id cid nxt t st = Thrown t' st'.
Proof.
  induction q as [|y q IH]; intros fuel nxt t st Hq Hfuel.
  - cbn in Hq. subst nxt. exists t, st. left. by destruct fuel.
  - destruct Hq as (-> & o & Ho & Hq).
    destruct (fill_guard (Some y) t st) eqn:Hg;
      [|exists t, st; left; destruct fuel; cbn; by rewrite Hg].
    destruct fuel as [|fuel]; [cbn in Hfuel; lia|].
    cbn [fill_loop]. rewrite Hg.
    destruct (fill_body id cid y t st) as [nxt t1 st1| |] eqn:Hb.
    + destruct (fill_body_progress _ _ _ _ _ _ _ _ _ Ho Hb) as (Hl & [->|[-> Hz]]).
      * apply IH; [|cbn in Hfuel; lia].
        eapply is_queue_links; [exact Hl|exact Hq].
      * exists t1, st1. left.
        destruct fuel; cbn; unfold fill_guard; rewrite Hz; cbn;
          by rewrite !andb_false_r.
    + eauto.
    + by destruct (fill_body_no_fault id cid y t st o Ho).
Qed.

(** C10: [processFill] terminates.  On a Limit whose [next] pointers
    form a queue [q], as many turns as [q] has orders are enough: the
    call returns or throws, it neither runs on nor runs into a dangling
    pointer. *)
Theorem processFill_terminates fuel t id st q :
  is_queue (store st) (headOrder (lim st)) q ->
  (length q <= fuel)%nat ->
  exists t' st',
    processFill fuel t id st = Returned t' st' \/
    processFill fuel t id st = Thrown t' st'.
Proof. intros Hq Hfuel. by eapply fill_loop_terminates. Qed.

(** ** Appending an order *)

Lemma queue_volume_app h q1 q2 :
  queue_volume h (q1 ++ q2) = queue_volume h q1 + queue_volume h q2.
Proof.
  induction q1 as [|y q1 IH]; [done|].
  cbn [app]. rewrite !queue_volume_cons, IH. lia.
Qed.

Lemma is_queue_valid h po q x :
  is_queue h po q -> x ∈ q -> (x < length h)%nat.
Proof.
  revert po. induction q as [|y q IH]; intros po; [by intros _ ?%elem_of_nil|].
  intros (_ & o & Ho & Hq) [->|Hx]%elem_of_cons.
  - eapply lookup_lt_Some, Ho.
  - eapply IH; eassumption.
Qed.

Lemma linked_other h tl onew x :
  (x < length h)%nat -> x <> tl -> linked h tl onew !! x = h !! x.
Proof.
  intros Hx Hne. unfold linked.
  rewrite list_lookup_alter_ne, list_lookup_alter_ne by lia.
  by apply lookup_app_l.
Qed.

Lemma linked_tail h tl onew o :
  h !! tl = Some o ->
  linked h tl onew !! tl = Some (setNextOrder (Some (length h)) o).
Proof.
  intros Ho. pose proof (lookup_lt_Some _ _ _ Ho) as Hlen. unfold linked.
  rewrite list_lookup_alter_eq, list_lookup_alter_ne by lia.
  rewrite lookup_app_l, Ho by done. done.
Qed.

Lemma linked_new h tl onew :
  (tl < length h)%nat ->
  linked h tl onew !! length h = Some (setPrevOrder (Some tl) onew).
Proof.
  intros Hlen. unfold linked.
  rewrite list_lookup_alter_ne, list_lookup_alter_eq by lia.
  rewrite list_lookup_middle by done. done.
Qed.

Lemma linked_shares h tl onew x :
  (x < length h)%nat -> shares_at (linked h tl onew) x = shares_at h x.
Proof.
  intros Hx. unfold shares_at. destruct (decide (x = tl)) as [->|Hne].
  - destruct (lookup_lt_is_Some_2 _ _ Hx) as [o Ho].
    by rewrite (linked_tail _ _ _ _ Ho), Ho.
  - by rewrite linked_other.
Qed.

Lemma is_queue_snoc h tl onew q : forall po,
  getNextOrder onew = None ->
  is_queue h po q -> last q = Some tl ->
  is_queue (linked h tl onew) po (q ++ [length h]).
Proof.
  intros po Hnew. revert po.
  induction q as [|y q IH]; intros po Hq Hlast; [done|].
  pose proof Hq as (-> & o & Ho & Hq').
  pose proof (lookup_lt_Some _ _ _ Ho) as Hlen.
  destruct q as [|y2 q].
  - cbn in Hlast. injection Hlast as <-. cbn in Hq'.
    cbn. split; [done|]. eexists. split; [by apply linked_tail|].
    cbn. split; [done|]. eexists. split; [by apply linked_new|].
    cbn. done.
  - rewrite last_cons_cons in Hlast.
    assert (y <> tl) as Hne.
    { intros ->. eapply is_queue_head_fresh; [exact Hq|].
      by apply last_Some_elem_of. }
    cbn [app is_queue]. split; [done|]. exists o.
    split; [by rewrite linked_other|].
    by apply (IH (getNextOrder o)).
Qed.

Lemma addOrderToLimit_inv od id st q :
  limit_inv st q -> tail_ok (lim st) q ->
  in_range (totalVolume (lim st) + shares od) ->
  in_range (size (lim st) + 1) ->
  exists st',
    addOrderToLimit od id st = Some st' /\
    limit_inv st' (q ++ [length (store st)]) /\
    tail_ok (lim st') (q ++ [length (store st)]).
Proof.
  intros (Hq & Hsz & Htv) Htl Hrtv Hrsz. unfold addOrderToLimit.
  cbn [headOrder tailOrder setSize setTotalVolume].
  rewrite (to_int_id _ Hrtv), (to_int_id _ Hrsz).
  destruct q as [|y q].
  - cbn in Hq. rewrite Hq. eexists. split; [reflexivity|]. split.
    + unfold limit_inv. cbn [store lim headOrder size totalVolume
        setTailOrder setHeadOrder app length].
      split_and!.
      * cbn. split; [done|]. eexists.
        split; [by apply list_lookup_middle|]. done.
      * cbn in *. lia.
      * rewrite queue_volume_cons. cbn in Htv. unfold shares_at.
        rewrite list_lookup_middle by done. cbn. lia.
    + intros _. done.
  - pose proof Hq as (Hh & o & Ho & _). rewrite Hh.
    destruct (last (y :: q)) as [tl|] eqn:Hlast;
      [|by apply last_None in Hlast].
    rewrite (Htl ltac:(done)), Hlast.
    assert (tl < length (store st))%nat as Hlen.
    { eapply is_queue_valid; [exact Hq|]. by apply last_Some_elem_of. }
    destruct (lookup_lt_is_Some_2 _ _ Hlen) as [otl Hotl].
    rewrite list_lookup_alter_ne, lookup_app_l, Hotl by lia.
    eexists. split; [reflexivity|]. split.
    + unfold limit_inv. cbn [store lim headOrder size totalVolume setTailOrder].
      fold (linked (store st) tl (newOrder od id)).
      split_and!.
      * by apply is_queue_snoc.
      * rewrite length_app. cbn in *. lia.
      * rewrite queue_volume_app.
        rewrite (queue_volume_shares (store st)).
        -- unfold queue_volume at 2. cbn [fmap list_fmap foldr].
           unfold shares_at. rewrite linked_new by done.
           cbn [from_option getShares setPrevOrder newOrder totalVolume
                  setSize setTotalVolume].
           rewrite Htv. lia.
        -- intros x Hx. apply linked_shares.
           eapply is_queue_valid; [exact Hq|exact Hx].
    + intros _. cbn [lim tailOrder setTailOrder]. by rewrite last_snoc.
Qed.

(** C4: on a Limit that satisfies its invariant, with [tailOrder] at the
    end of the queue and resting orders of positive size,
    [addOrderToLimit] and every returning call of [processFill] leave
    [size] the length of the queue and [totalVolume] the sum of the
    remaining shares of the queued orders. *)
Theorem limit_invariant_preserved st q :
  limit_inv st q ->
  all_resting (store st) q ->
  tail_ok (lim st) q ->
  totalVolume (lim st) <= int_max -> size (lim st) <= int_max ->
  (forall od id,
      in_range (totalVolume (lim st) + shares od) ->
      in_range (size (lim st) + 1) ->
      exists st',
        addOrderToLimit od id st = Some st' /\
        limit_inv st' (q ++ [length (store st)])) /\
  (forall fuel t id t' st',
      intent_ok t -> (length q <= fuel)%nat ->
      processFill fuel t id st = Returned t' st' ->
      exists n, limit_inv st' (drop n q)).
Proof.
  intros Hinv Hrest Htl Htv Hsz. split.
  - intros od id Hrtv Hrsz.
    destruct (addOrderToLimit_inv od id st q Hinv Htl Hrtv Hrsz)
      as (st' & Hadd & Hinv' & _).
    eauto.
  - intros fuel t id t' st' Hint Hfuel Hret.
    destruct (walk_spec id (clientId t) q fuel (headOrder (lim st)) t st)
      as (n & es & t2 & st2 & Hw & _ & _ & _ & _ & _ & Hout);
      [by unfold walk_inv|done|].
    exists n. destruct Hw as (_ & Hinv' & _).
    unfold processFill in Hret.
    destruct Hout as [[Hr _]|[Hr _]]; rewrite Hr in Hret; [|done].
    by injection Hret as <- <-.
Qed.

(** ** What [processFill] does not do *)

Lemma fill_loop_frame id cid : forall fuel nxt t st t' st',
  fill_loop fuel id cid nxt t st = Returned t' st' \/
  fill_loop fuel id cid nxt t st = Thrown t' st' ->
  allOrders (book st') = allOrders (book st) /\
  tailOrder (lim st') = tailOrder (lim st).
Proof.
  induction fuel as [|fuel IH]; intros nxt t st t' st'; cbn.
  - destruct nxt as [p|]; [destruct (fill_guard _ _ _)|];
      intros [H|H]; by simplify_eq.
  - destruct nxt as [p|]; [destruct (fill_guard _ _ _)|];
      try (intros [H|H]; by simplify_eq).
    destruct (fill_body _ _ _ _ _) as [n1 t1 st1| |] eqn:Hb.
    + intros Hr. apply IH in Hr as (-> & ->).
      apply fill_body_frame in Hb as (? & ? & _ & _ & _ & _ & _ & _ & ? & ? & _).
      done.
    + intros [H|H]; by simplify_eq.
    + intros [H|H]; by simplify_eq.
Qed.

(** C8 (the code differs): [processFill] never writes [tailOrder]; a call
    that uses up the last order of the Limit nulls [headOrder] and leaves
    [tailOrder] at the order it used up. *)
Theorem processFill_keeps_tailOrder fuel t id st t' st' :
  processFill fuel t id st = Returned t' st' ->
  tailOrder (lim st') = tailOrder (lim st).
Proof.
  intros Hr. eapply fill_loop_frame. left. exact Hr.
Qed.

(** C9 (the code differs): the turn of [processFill] that uses up the
    maker at the head of the queue takes it out of the queue and
    decrements [size], and leaves the order index as it was: the order is
    still registered under its id. *)
Theorem full_fill_keeps_order_index id cid t st y q o :
  walk_inv (Some y) t st (y :: q) ->
  store st !! y = Some o ->
  cid <> getClientId o ->
  getShares o <= shares t ->
  allOrders (book st) !! getOrderId o = Some y ->
  exists t1 st1,
    fill_body id cid y t st = Next (getNextOrder o) t1 st1 /\
    limit_inv st1 q /\ (y ∉ q) /\
    headOrder (lim st1) = getNextOrder o /\
    size (lim st1) = size (lim st) - 1 /\
    allOrders (book st1) !! getOrderId o = Some y.
Proof.
  intros Hw Ho Hc Hle Hidx.
  destruct (full_turn_inv id cid t st y q o Hw Ho Hc Hle)
    as (t1 & st1 & Hb & Hw1 & _ & _ & Hbk & _).
  pose proof (walk_inv_cons_inv _ _ _ _ _ Hw) as (_ & _ & _ & _ & _ & Hfresh & _).
  exists t1, st1. destruct Hw1 as (Hh1 & Hinv1 & _).
  split_and!; try done.
  - destruct Hinv1 as (_ & Hs1 & _), Hw as (_ & (_ & Hs & _) & _).
    rewrite Hs1, Hs. cbn [length]. lia.
  - by rewrite Hbk.
Qed.

End Properties.

(** ** The running average as a volume-weighted average

    Two remarks on C6, one for each arithmetic [avgPrice] may have. *)

Lemma of_int_Qc_add a b : of_int_Qc (a + b) = (of_int_Qc a + of_int_Qc b)%Qc.
Proof.
  unfold of_int_Qc. apply Qc_is_canon. cbn. rewrite !Qred_correct.
  rewrite inject_Z_plus. reflexivity.
Qed.

Lemma of_int_Qc_nonzero c : c <> 0 -> of_int_Qc c <> 0%Qc.
Proof.
  intros Hc Heq. apply Hc. unfold of_int_Qc in Heq.
  apply (f_equal this) in Heq. cbn in Heq.
  assert (Qred (inject_Z c) == 0)%Q as H by (rewrite Heq; reflexivity).
  rewrite Qred_correct in H. unfold Qeq in H. cbn in H. lia.
Qed.

(** In exact arithmetic the cumulative quantity times the average price is
    the value traded so far. *)
Lemma running_average_value fills : forall cum avg val,
  0 <= cum ->
  (of_int_Qc cum * avg)%Qc = of_int_Qc val ->
  Forall fill_ok fills ->
  fst (running_average (PA := RationalPrice) cum avg fills)
    = cum + traded_volume fills /\
  (of_int_Qc (cum + traded_volume fills)
   * snd (running_average (PA := RationalPrice) cum avg fills))%Qc
    = of_int_Qc (val + traded_value fills).
Proof.
  induction fills as [|[v price] fills IH]; intros cum avg val Hcum Hval Hok.
  - cbn. rewrite !Z.add_0_r. done.
  - pose proof (Forall_inv Hok) as [Hv Hr]. cbn [fst snd] in Hv, Hr.
    cbn [running_average traded_volume traded_value foldr fst snd].
    fold (traded_volume fills). fold (traded_value fills).
    destruct (IH (cum + v) (fill_avg (PA := RationalPrice) cum avg v price)
                (val + v * price)) as [IH1 IH2].
    + lia.
    + unfold fill_avg. cbn [of_int padd pmul pdiv RationalPrice].
      rewrite (to_int_id _ Hr), (of_int_Qc_add val), <- Hval.
      field. apply of_int_Qc_nonzero. lia.
    + by apply Forall_inv_tail in Hok.
    + rewrite IH1, !Z.add_assoc in *. split; [done|]. exact IH2.
Qed.

Lemma traded_volume_pos fills :
  Forall fill_ok fills -> fills <> [] -> 0 < traded_volume fills.
Proof.
  induction 1 as [|f fills [Hv _] Hok IH]; [done|]. intros _.
  cbn [traded_volume foldr]. fold (traded_volume fills).
  destruct fills; [cbn; lia|]. specialize (IH ltac:(done)). lia.
Qed.

(** With rational average prices, an order that starts unfilled has, after
    any fills, the volume-weighted average of their prices. *)
Remark rational_average_is_vwap fills :
  Forall fill_ok fills -> fills <> [] ->
  running_average (PA := RationalPrice) 0 0%Qc fills
    = (traded_volume fills,
       (of_int_Qc (traded_value fills) / of_int_Qc (traded_volume fills))%Qc).
Proof.
  intros Hok Hne.
  destruct (running_average_value fills 0 0%Qc 0) as [H1 H2]; [done| |done|].
  { unfold of_int_Qc. apply Qc_is_canon. reflexivity. }
  pose proof (traded_volume_pos fills Hok Hne) as Hpos.
  rewrite !Z.add_0_l in *.
  destruct (running_average 0 0%Qc fills) as [cum avg]. cbn [fst snd] in *.
  subst cum. f_equal. rewrite <- H2.
  field. apply of_int_Qc_nonzero. lia.
Qed.

(** With [int] average prices the division truncates at every fill: after
    one share at each of 101, 102 and 103 the running average is 101, the
    volume-weighted average is 102. *)
Remark int_average_drifts :
  running_average (PA := IntPrice) 0 0 [(1, 101); (1, 102); (1, 103)] = (3, 101)
  /\ Z.quot (traded_value [(1, 101); (1, 102); (1, 103)])
            (traded_volume [(1, 101); (1, 102); (1, 103)]) = 102.
Proof. split; reflexivity. Qed.

(** C6 (the code differs): the average after a fill is not the
    volume-weighted average of the fills when the product of volume and
    price leaves the range of an [int].  One fill of 100000 shares at the
    price 100000 on orders with nothing executed before has the average
    100000; the maker, the taker and the execution get 14100 with [int]
    averages, and 1410065408 / 100000 with rational ones. *)
Theorem fill_average_wraps :
  (exists nxt t' st' o' e,
     fill_body (PA := IntPrice) 9 2 0%nat
       (Sample.big_intent (PA := IntPrice)) (Sample.big_bid (PA := IntPrice))
       = Next nxt t' st' /\
     appended (Sample.big_bid (PA := IntPrice)) st' [e] /\
     store st' !! 0%nat = Some o' /\
     execSize e = 100000 /\ execPrice e = 100000 /\
     getAvgPrice o' = 14100 /\ avgPrice t' = 14100 /\
     makerAvgPrice e = 14100 /\ takerAvgPrice e = 14100) /\
  (exists nxt t' st' o' e,
     fill_body (PA := RationalPrice) 9 2 0%nat
       (Sample.big_intent (PA := RationalPrice))
       (Sample.big_bid (PA := RationalPrice))
       = Next nxt t' st' /\
     appended (Sample.big_bid (PA := RationalPrice)) st' [e] /\
     store st' !! 0%nat = Some o' /\
     execSize e = 100000 /\ execPrice e = 100000 /\
     getAvgPrice o' <> of_int_Qc 100000 /\ avgPrice t' <> of_int_Qc 100000 /\
     makerAvgPrice e <> of_int_Qc 100000 /\
     takerAvgPrice e <> of_int_Qc 100000).
Proof.
  split.
  - destruct (big_fill (PA := IntPrice))
      as (nxt & t' & st' & o' & e & Hb & He & Ho & Hs & Hp & Ha & Ht & Hm & Hk).
    exists nxt, t', st', o', e.
    rewrite Ht, Hm, Hk, Ha. split_and!; try done; vm_compute; reflexivity.
  - destruct (big_fill (PA := RationalPrice))
      as (nxt & t' & st' & o' & e & Hb & He & Ho & Hs & Hp & Ha & Ht & Hm & Hk).
    exists nxt, t', st', o', e.
    assert (getAvgPrice o' <> of_int_Qc 100000) as Hne.
    { rewrite Ha. cbn [pdiv padd pmul of_int RationalPrice].
      intros H. apply (f_equal this) in H. vm_compute in H. discriminate. }
    rewrite Ht, Hm, Hk. split_and!; done.
Qed.

(** * The properties at work on the sample books *)

Section Witnesses.

Import Sample.

#[local] Existing Instance IntPrice.

(** the invariants of the sample books *)

Lemma one_bid_inv : limit_inv one_bid [0%nat].
Proof.
  unfold limit_inv. split_and!; [|reflexivity..].
  cbn. split; [reflexivity|]. eexists. split; reflexivity.
Defined.

Lemma two_bids_inv : limit_inv two_bids [0%nat; 1%nat].
Proof.
  unfold limit_inv. split_and!; [|reflexivity..].
  cbn. split; [reflexivity|]. eexists. split; [reflexivity|].
  cbn. split; [reflexivity|]. eexists. split; reflexivity.
Defined.

Lemma one_bid_resting : all_resting (store one_bid) [0%nat].
Proof.
  repeat constructor. eexists. split; [reflexivity|].
  unfold resting, int_max. cbn. lia.
Defined.

Lemma two_bids_resting : all_resting (store two_bids) [0%nat; 1%nat].
Proof.
  constructor; [|constructor; [|constructor]];
    (eexists; split; [reflexivity|]; unfold resting, int_max; cbn; lia).
Defined.

Lemma intent_ok_sample c n : 0 <= n <= int_max -> intent_ok (intent c n).
Proof. unfold intent_ok, int_max. cbn. lia. Defined.



Lemma processFill_self_trade_witness :
  exists t_k st_k,
    fill_turns 1 9 2 (Some 0%nat) (intent 2 4) two_bids
      = Some (Some 1%nat, t_k, st_k) /\
    processFill 2 (intent 2 4) 9 two_bids = Thrown t_k st_k /\
    exists es, appended two_bids st_k es /\ length es = 1%nat.
Proof.
  eexists _, _. split; [vm_compute; reflexivity|].
  eapply (processFill_self_trade 1 0 (intent 2 4) 9 two_bids 1%nat);
    reflexivity.
Defined.

Lemma limit_invariant_preserved_witness :
  (forall od id,
      in_range (totalVolume (lim two_bids) + shares od) ->
      in_range (size (lim two_bids) + 1) ->
      exists st',
        addOrderToLimit od id two_bids = Some st' /\
        limit_inv st' ([0%nat; 1%nat] ++ [length (store two_bids)])) /\
  (forall fuel t id t' st',
      intent_ok t -> (length [0%nat; 1%nat] <= fuel)%nat ->
      processFill fuel t id two_bids = Returned t' st' ->
      exists n, limit_inv st' (drop n [0%nat; 1%nat])).
Proof.
  apply (limit_invariant_preserved two_bids [0%nat; 1%nat]).
  - exact two_bids_inv.
  - exact two_bids_resting.
  - intros _. reflexivity.
  - unfold int_max. cbn. lia.
  - unfold int_max. cbn. lia.
Defined.

Lemma fill_price_size_leaves_witness :
  exists nxt t' st',
    fill_body 9 2 0%nat (intent 2 4) one_bid = Next nxt t' st' /\
    exists e,
      appended one_bid st' [e] /\
      execPrice e = 100 /\ execSize e = Z.min 5 4 /\
      makerLeavesQty e = 5 - execSize e /\
      takerLeavesQty e = 4 - execSize e.
Proof.
  eexists _, _, _. split; [vm_compute; reflexivity|].
  eapply (fill_price_size_leaves 9 2 0%nat (intent 2 4) one_bid
            (order 7 1 5 None None)).
  - reflexivity.
  - unfold resting, int_max. cbn. lia.
  - apply intent_ok_sample. unfold int_max. lia.
  - reflexivity.
Defined.

Lemma fill_exec_types_witness :
  exists nxt t' st',
    fill_body 9 2 0%nat (intent 2 4) one_bid = Next nxt t' st' /\
    exists e,
      appended one_bid st' [e] /\
      (makerExecType e = FullFill <-> execSize e = 5) /\
      (makerExecType e = PartialFill <-> execSize e <> 5) /\
      (takerExecType e = FullFill <-> shares t' = 0) /\
      (takerExecType e = PartialFill <-> shares t' <> 0).
Proof.
  eexists _, _, _. split; [vm_compute; reflexivity|].
  eapply (fill_exec_types 9 2 0%nat (intent 2 4) one_bid
            (order 7 1 5 None None)).
  - reflexivity.
  - unfold resting, int_max. cbn. lia.
  - apply intent_ok_sample. unfold int_max. lia.
  - reflexivity.
Defined.

Lemma processFill_keeps_tailOrder_witness :
  exists t' st',
    processFill 1 (intent 2 5) 9 one_bid = Returned t' st' /\
    size (lim st') = 0 /\
    headOrder (lim st') = None /\
    tailOrder (lim st') = Some 0%nat /\
    tailOrder (lim st') = tailOrder (lim one_bid).
Proof.
  eexists _, _. split; [vm_compute; reflexivity|].
  split_and!; [reflexivity..|].
  eapply (processFill_keeps_tailOrder 1 (intent 2 5) 9 one_bid).
  reflexivity.
Defined.

Lemma full_fill_keeps_order_index_witness :
  exists t1 st1,
    fill_body 9 2 0%nat (intent 2 5) one_bid = Next None t1 st1 /\
    limit_inv st1 [] /\ (0%nat ∉ ([] : list nat)) /\
    headOrder (lim st1) = None /\
    size (lim st1) = size (lim one_bid) - 1 /\
    allOrders (book st1) !! 7 = Some 0%nat.
Proof.
  apply (full_fill_keeps_order_index 9 2 (intent 2 5) one_bid 0%nat []
           (order 7 1 5 None None)).
  - unfold walk_inv. split_and!.
    + reflexivity.
    + exact one_bid_inv.
    + exact one_bid_resting.
    + apply intent_ok_sample. unfold int_max. lia.
    + unfold int_max. cbn. lia.
    + unfold int_max. cbn. lia.
  - reflexivity.
  - cbn. lia.
  - cbn. lia.
  - reflexivity.
Defined.

Lemma processFill_terminates_witness :
  exists t' st',
    processFill 2 (intent 3 4) 9 two_bids = Returned t' st' \/
    processFill 2 (intent 3 4) 9 two_bids = Thrown t' st'.
Proof.
  apply (processFill_terminates 2 (intent 3 4) 9 two_bids [0%nat; 1%nat]).
  - apply two_bids_inv.
  - cbn. lia.
Defined.

End Witnesses.

(** * Scenarios of the specification, run on the embedding *)

Section Scenarios.

Import Sample.

#[local] Existing Instance IntPrice.

(** Rest then match: a bid of 10 shares rests, a sell of 4 fills against
    it. *)
Example rest_then_match :
  exists st1 t' st' e,
    addOrderToLimit (mkOrderData 1 Buy 100 10 0 0) 7 no_bid = Some st1 /\
    processFill 1 (intent 2 4) 9 st1 = Returned t' st' /\
    executionQueue (book st') = [e] /\
    execPrice e = 100 /\ execSize e = 4 /\
    makerExecType e = PartialFill /\ takerExecType e = FullFill /\
    makerLeavesQty e = 6 /\ takerLeavesQty e = 0 /\
    size (lim st') = 1 /\ totalVolume (lim st') = 6.
Proof.
  eexists _, _, _, _. split; [vm_compute; reflexivity|].
  split; [vm_compute; reflexivity|].
  split; [reflexivity|]. cbn. split_and!; reflexivity.
Qed.

(** Time priority: two bids of 5 shares, a sell of 6 uses up the first and
    takes one share of the second. *)
Example time_priority :
  exists st1 st2 t' st' e1 e2,
    addOrderToLimit (mkOrderData 1 Buy 100 5 0 0) 7 no_bid = Some st1 /\
    addOrderToLimit (mkOrderData 2 Buy 100 5 0 0) 8 st1 = Some st2 /\
    processFill 2 (intent 3 6) 9 st2 = Returned t' st' /\
    executionQueue (book st') = [e1; e2] /\
    makerOrderId e1 = 7 /\ execSize e1 = 5 /\ makerExecType e1 = FullFill /\
    makerOrderId e2 = 8 /\ execSize e2 = 1 /\ makerExecType e2 = PartialFill /\
    takerExecType e2 = FullFill /\
    headOrder (lim st') = Some 1%nat /\ size (lim st') = 1 /\
    totalVolume (lim st') = 4.
Proof.
  eexists _, _, _, _, _, _. split; [vm_compute; reflexivity|].
  split; [vm_compute; reflexivity|].
  split; [vm_compute; reflexivity|].
  split; [reflexivity|]. cbn. split_and!; reflexivity.
Qed.

(** Self-trade after a partial cross: the fill against client 1 stays, the
    taker keeps 2 shares and the bid of client 2 is untouched. *)
Example self_trade_after_partial_cross :
  exists t' st' e,
    processFill 2 (intent 2 4) 9 two_bids = Thrown t' st' /\
    executionQueue (book st') = [e] /\
    makerOrderId e = 7 /\ execSize e = 2 /\
    shares t' = 2 /\
    headOrder (lim st') = Some 1%nat /\ size (lim st') = 1 /\
    totalVolume (lim st') = 3.
Proof.
  eexists _, _, _. split; [vm_compute; reflexivity|].
  split; [reflexivity|]. cbn. split_and!; reflexivity.
Qed.

(** Average price over three price levels, with [int] averages: one
    share each at 101, 102 and 103 leaves the taker with the average 101;
    the volume-weighted average of the three fills is 102. *)
Example taker_average_over_levels :
  exists t1 st1 t2 st2 t3 st3,
    processFill 1 (mkOrderData 2 Buy 103 3 0 0) 9 (one_ask 101)
      = Returned t1 st1 /\
    processFill 1 t1 9 (one_ask 102) = Returned t2 st2 /\
    processFill 1 t2 9 (one_ask 103) = Returned t3 st3 /\
    shares t3 = 0 /\ executedQuantity t3 = 3 /\ avgPrice t3 = 101 /\
    Z.quot (1 * 101 + 1 * 102 + 1 * 103) 3 = 102.
Proof.
  eexists _, _, _, _, _, _. split; [vm_compute; reflexivity|].
  split; [vm_compute; reflexivity|].
  split; [vm_compute; reflexivity|].
  cbn. split_and!; reflexivity.
Qed.

End Scenarios.


(** * Further properties of the Limit *)

Section Further.

Context {P : Type} {PA : PriceArith P}.

Implicit Types (o m : Order P) (t od : OrderData P) (st : State P)
  (h : list (Order P)) (q : list ptr) (p x : ptr) (e : Execution P)
  (es : list (Execution P)).

(** ** Accounting of a walk *)

Lemma executed_volume_cons e es :
  executed_volume (e :: es) = execSize e + executed_volume es.
Proof. reflexivity. Qed.

Lemma totalVolume_decreaseSize (l : Limit) :
  totalVolume (decreaseSize l) = totalVolume l.
Proof. unfold decreaseSize. by destruct (0 <? size l). Qed.

Lemma head_drop_elem q n x : head (drop n q) = Some x -> x ∈ q.
Proof.
  intros Hx. destruct (drop n q) as [|y r] eqn:Hd; [done|].
  injection Hx as ->. rewrite <- (take_drop n q), Hd.
  apply elem_of_app. right. left.
Qed.

(** The walk of [processFill] with its books kept: what the taker gives up,
    what the Limit gives up and what the executions report are the same
    volume; orders the walk did not reach are as they were; used-up makers
    keep their [shares] field. *)
Lemma take_elem q n x : x ∈ take n q -> x ∈ q.
Proof.
  intros Hx. rewrite <- (take_drop n q). apply elem_of_app. by left.
Qed.

Lemma walk_account id cid q : forall fuel nxt t st,
  walk_inv nxt t st q -> (length q <= fuel)%nat ->
  exists n es t' st',
    walk_inv (headOrder (lim st')) t' st' (drop n q) /\
    appended st st' es /\
    (length es <= length q)%nat /\
    (length es = n \/ (length es = S n /\ shares t' = 0)) /\
    shares t' = shares t - executed_volume es /\
    executedQuantity t' = executedQuantity t + executed_volume es /\
    totalVolume (lim st') = totalVolume (lim st) - executed_volume es /\
    (forall x, x ∉ take (length es) q -> store st' !! x = store st !! x) /\
    (forall x, x ∈ take n q -> shares_at (store st') x = shares_at (store st) x) /\
    ((fill_loop fuel id cid nxt t st = Returned t' st' /\
      (shares t' = 0 \/ drop n q = [])) \/
     (fill_loop fuel id cid nxt t st = Thrown t' st' /\ shares t' <> 0 /\
      length es = n /\
      exists x o, head (drop n q) = Some x /\ store st !! x = Some o /\
                  getClientId o = cid)).
Proof.
  induction q as [|y q IH]; intros fuel nxt t st Hw Hfuel.
  - pose proof Hw as (Hh & (Hq & _) & _). cbn in Hq.
    assert (nxt = None) as -> by congruence.
    exists 0%nat, [], t, st. unfold appended. rewrite app_nil_r. cbn.
    split_and!; [by rewrite Hh|done|lia|by left|lia|lia|lia|done
                |by intros ? ?%elem_of_nil|].
    left. split; [by destruct fuel|by right].
  - pose proof (walk_inv_cons_inv _ _ _ _ _ Hw)
      as (-> & o & Ho & Hres & Hq & Hfresh & Htv & Hvol & Hsz & Hrest).
    pose proof Hw as (Hh & _ & _ & Hint & Hmax & _).
    destruct (decide (shares t = 0)) as [Hz|Hnz].
    { exists 0%nat, [], t, st. unfold appended. rewrite app_nil_r. cbn.
      split_and!; [by rewrite Hh|done|lia|by left|lia|lia|lia|done
                |by intros ? ?%elem_of_nil|].
      left. split; [|by left].
      destruct fuel; cbn; unfold fill_guard; rewrite Hz; cbn;
        by rewrite !andb_false_r. }
    assert (fill_guard (Some y) t st = true) as Hg.
    { apply fill_guard_true. split_and!; [done|lia|done]. }
    destruct fuel as [|fuel]; [cbn in Hfuel; lia|].
    cbn [fill_loop]. rewrite Hg.
    destruct (decide (cid = getClientId o)) as [Hc|Hc].
    { exists 0%nat, [], t, st. unfold appended. rewrite app_nil_r. cbn.
      split_and!; [by rewrite Hh|done|lia|by left|lia|lia|lia|done
                |by intros ? ?%elem_of_nil|].
      right. split_and!; [|done|done|by exists y, o].
      unfold fill_body. rewrite Ho. by destruct (Z.eqb_spec cid (getClientId o)). }
    destruct (Z.le_gt_cases (getShares o) (shares t)) as [Hle|Hgt].
    + destruct (full_turn_inv id cid t st y q o Hw Ho Hc Hle)
        as (t1 & st1 & Hb & Hw1 & _).
      pose proof (fill_body_full id cid y t st o Ho Hc Hres Hint Hle
                    ltac:(lia)) as Hb'.
      rewrite Hb in Hb'. injection Hb' as Ht1 Hst1.
      rewrite Hb.
      destruct (IH fuel _ _ _ Hw1) as (n & es & t' & st' & Hw' & Hes & Hbound & Hlen
        & Hsh & Hcum & Hvol' & Hun & Hkeep & Hout).
      { cbn in Hfuel. lia. }
      exists (S n), (fill_execution (getShares o) id o t (book st) :: es), t', st'.
      cbn [drop length take]. rewrite executed_volume_cons.
      cbn [execSize fill_execution].
      assert (forall x, x <> y -> store st1 !! x = store st !! x) as Hne.
      { intros x Hx. rewrite Hst1. cbn [store].
        by apply list_lookup_insert_ne. }
      split_and!.
      * done.
      * unfold appended in *. rewrite Hes, Hst1. cbn. by rewrite <- app_assoc.
      * lia.
      * destruct Hlen as [Hlen|[Hlen Hz]]; [left|right]; lia.
      * rewrite Hsh, Ht1. cbn. lia.
      * rewrite Hcum, Ht1. cbn. lia.
      * rewrite Hvol', Hst1. cbn [lim setHeadOrder totalVolume].
        rewrite totalVolume_decreaseSize. cbn. lia.
      * intros x [Hxy Hx]%not_elem_of_cons. rewrite Hun by done. by apply Hne.
      * intros x [->|Hx]%elem_of_cons.
        -- unfold shares_at. rewrite Hun.
           ++ rewrite Hst1. cbn [store].
              rewrite list_lookup_insert_eq by (eapply lookup_lt_Some, Ho).
              by rewrite Ho.
           ++ intros Hin. apply Hfresh. eapply take_elem, Hin.
        -- rewrite Hkeep by done. unfold shares_at. rewrite Hne; [done|].
           intros ->. apply Hfresh. eapply take_elem, Hx.
      * destruct Hout as [[Hr Hstop]|(Hr & Hnz' & Hn & x & o' & Hx & Ho' & Hcl)];
          [left; done|right].
        split_and!; [done|done|lia|].
        exists x, o'. split_and!; [done| |done].
        rewrite <- Hne; [done|].
        intros ->. apply Hfresh. eapply head_drop_elem, Hx.
    + destruct (partial_turn_inv id cid t st y q o Hw Ho Hc Hgt)
        as (t1 & st1 & Hb & Hw1 & Hs1 & _).
      pose proof (fill_body_partial id cid y t st o Ho Hc Hres Hint Hgt
                    ltac:(lia)) as Hb'.
      rewrite Hb in Hb'. injection Hb' as Ht1 Hst1.
      rewrite Hb.
      exists 0%nat, [fill_execution (shares t) id o t (book st)], t1, st1.
      cbn [drop length take]. rewrite executed_volume_cons.
      cbn [execSize fill_execution executed_volume foldr fmap list_fmap].
      pose proof Hw1 as (Hh1 & _).
      split_and!.
      * by rewrite Hh1.
      * unfold appended. rewrite Hst1. done.
      * lia.
      * by right.
      * rewrite Ht1. cbn. lia.
      * rewrite Ht1. cbn. lia.
      * rewrite Hst1. cbn. lia.
      * intros x [Hxy _]%not_elem_of_cons. rewrite Hst1. cbn [store].
        by apply list_lookup_insert_ne.
      * by intros x ?%elem_of_nil.
      * left. split; [|by left].
        destruct fuel; cbn; unfold fill_guard; rewrite Hs1; cbn;
          by rewrite !andb_false_r.
Qed.

(** ** What a call leaves of the Limit *)

Lemma limit_wf_walk_inv st q t :
  limit_wf st q -> intent_ok t -> walk_inv (headOrder (lim st)) t st q.
Proof. intros (? & ? & _ & ? & ?) ?. by unfold walk_inv. Qed.

Lemma last_drop_nonempty q n : drop n q <> [] -> last (drop n q) = last q.
Proof.
  intros Hne. rewrite <- (take_drop n q) at 2. rewrite last_app.
  destruct (last (drop n q)) eqn:Hl; [done|]. by apply last_None in Hl.
Qed.

Lemma queue_volume_pos h q :
  all_resting h q -> q <> [] -> 0 < queue_volume h q.
Proof.
  intros Hr Hne. destruct Hr as [|y q (o & Ho & Hs & _) Hr]; [done|].
  rewrite queue_volume_cons. unfold shares_at. rewrite Ho. cbn.
  pose proof (queue_volume_nonneg _ _ Hr). lia.
Qed.

(** One statement of the walk for the theorems below: the outcome of
    [processFill] with the accounts of [walk_account]. *)
Lemma processFill_account fuel t id st q t' st' :
  limit_wf st q -> intent_ok t -> (length q <= fuel)%nat ->
  processFill fuel t id st = Returned t' st' \/
  processFill fuel t id st = Thrown t' st' ->
  exists n es,
    limit_wf st' (drop n q) /\ intent_ok t' /\
    appended st st' es /\
    (length es <= length q)%nat /\
    (length es = n \/ (length es = S n /\ shares t' = 0)) /\
    shares t' = shares t - executed_volume es /\
    executedQuantity t' = executedQuantity t + executed_volume es /\
    totalVolume (lim st') = totalVolume (lim st) - executed_volume es /\
    (forall x, x ∉ take (length es) q -> store st' !! x = store st !! x) /\
    (forall x, x ∈ take n q -> shares_at (store st') x = shares_at (store st) x) /\
    (processFill fuel t id st = Returned t' st' ->
       shares t' = 0 \/ drop n q = []) /\
    (processFill fuel t id st = Thrown t' st' ->
       shares t' <> 0 /\ length es = n /\
       exists x o, head (drop n q) = Some x /\ store st !! x = Some o /\
                   getClientId o = clientId t).
Proof.
  intros Hwf Hint Hfuel Hres.
  destruct (walk_account id (clientId t) q fuel (headOrder (lim st)) t st
              (limit_wf_walk_inv _ _ _ Hwf Hint) Hfuel)
    as (n & es & t2 & st2 & Hw & Hes & Hbound & Hlen & Hsh & Hcum & Hvol & Hun
        & Hkeep & Hout).
  unfold processFill in *.
  assert (t2 = t' /\ st2 = st') as [-> ->].
  { destruct Hout as [[Hr _]|[Hr _]], Hres as [Hr'|Hr'];
      rewrite Hr in Hr'; by simplify_eq. }
  destruct (fill_loop_frame _ _ _ _ _ _ _ _ Hres) as [_ Htl].
  exists n, es. split_and!; try done.
  - destruct Hw as (_ & Hinv & Hrest & _ & Hmax & Hsz).
    unfold limit_wf. split_and!; try done.
    intros Hne. rewrite Htl, last_drop_nonempty by done.
    destruct Hwf as (_ & _ & Htail & _). apply Htail.
    intros ->. by rewrite drop_nil in Hne.
  - by destruct Hw as (_ & _ & _ & ? & _).
  - intros Hr. destruct Hout as [[_ ?]|[Hr' _]]; [done|].
    rewrite Hr in Hr'. done.
  - intros Hr. destruct Hout as [[Hr' _]|[_ ?]]; [|done].
    rewrite Hr in Hr'. done.
Qed.

(** X1: [processFill] leaves a well-formed Limit well-formed whether it
    returns or throws the self-trade error: the queue is a suffix of the
    old one, [size] and [totalVolume] agree with it, [tailOrder] is still
    its last order when it has one, and the taker's quantities stay in
    range. *)
Theorem processFill_well_formed fuel t id st q t' st' :
  limit_wf st q -> intent_ok t -> (length q <= fuel)%nat ->
  processFill fuel t id st = Returned t' st' \/
  processFill fuel t id st = Thrown t' st' ->
  exists n, limit_wf st' (drop n q) /\ intent_ok t'.
Proof.
  intros Hwf Hint Hfuel Hres.
  destruct (processFill_account _ _ _ _ _ _ _ Hwf Hint Hfuel Hres)
    as (n & es & ? & ? & _).
  by exists n.
Qed.

(** X2: conservation.  The volume of the executions a call of
    [processFill] appends is what the taker's [shares] lose, what the
    taker's [executedQuantity] gains and what the Limit's [totalVolume]
    loses, also when the call ends in the self-trade error. *)
Theorem processFill_conservation fuel t id st q t' st' :
  limit_wf st q -> intent_ok t -> (length q <= fuel)%nat ->
  processFill fuel t id st = Returned t' st' \/
  processFill fuel t id st = Thrown t' st' ->
  exists es,
    appended st st' es /\
    shares t - shares t' = executed_volume es /\
    executedQuantity t' - executedQuantity t = executed_volume es /\
    totalVolume (lim st) - totalVolume (lim st') = executed_volume es.
Proof.
  intros Hwf Hint Hfuel Hres.
  destruct (processFill_account _ _ _ _ _ _ _ Hwf Hint Hfuel Hres)
    as (n & es & _ & _ & Hes & _ & _ & Hsh & Hcum & Hvol & _).
  exists es. split_and!; [done|lia..].
Qed.

(** X3: the walk writes only the orders it fills.  With [k] executions
    appended, every order other than the first [k] of the queue is in the
    store exactly as before the call. *)
Theorem processFill_untouched_orders fuel t id st q t' st' :
  limit_wf st q -> intent_ok t -> (length q <= fuel)%nat ->
  processFill fuel t id st = Returned t' st' \/
  processFill fuel t id st = Thrown t' st' ->
  exists es,
    appended st st' es /\ (length es <= length q)%nat /\
    forall x, x ∉ take (length es) q -> store st' !! x = store st !! x.
Proof.
  intros Hwf Hint Hfuel Hres.
  destruct (processFill_account _ _ _ _ _ _ _ Hwf Hint Hfuel Hres)
    as (n & es & _ & _ & Hes & Hbound & _ & _ & _ & _ & Hun & _).
  by exists es.
Qed.

(** X4: a taker that meets no order of its own client is filled as far as
    the Limit's volume goes: the call returns, the taker is left with
    [max 0 (shares - totalVolume)] shares and the Limit with
    [max 0 (totalVolume - shares)]; a taker of at least the Limit's volume
    empties it. *)
Theorem processFill_amounts fuel t id st q :
  limit_wf st q -> intent_ok t ->
  no_self_trade (store st) (clientId t) q ->
  (length q <= fuel)%nat ->
  exists t' st',
    processFill fuel t id st = Returned t' st' /\
    shares t' = Z.max 0 (shares t - totalVolume (lim st)) /\
    totalVolume (lim st') = Z.max 0 (totalVolume (lim st) - shares t) /\
    (totalVolume (lim st) <= shares t ->
       headOrder (lim st') = None /\ size (lim st') = 0).
Proof.
  intros Hwf Hint Hself Hfuel.
  destruct (fill_loop_terminates id (clientId t) q fuel (headOrder (lim st)) t st)
    as (t' & st' & Hres); [by destruct Hwf as ((? & _) & _)|done|].
  fold (processFill fuel t id st) in Hres.
  destruct (processFill_account _ _ _ _ _ _ _ Hwf Hint Hfuel Hres)
    as (n & es & Hwf' & Hint' & _ & _ & _ & Hsh & _ & Hvol & _ & _ & Hret & Hthr).
  destruct Hres as [Hres|Hres].
  2:{ destruct (Hthr Hres) as (_ & _ & x & o & Hx & Ho & Hc).
      unfold no_self_trade in Hself. rewrite Forall_forall in Hself.
      destruct (Hself x (head_drop_elem _ _ _ Hx) o Ho Hc). }
  exists t', st'. split; [done|].
  destruct Hwf' as ((Hq' & Hsz' & Hv') & Hr' & _).
  pose proof (queue_volume_nonneg _ _ Hr') as Hnn.
  destruct Hint' as (Hs' & _).
  assert (totalVolume (lim st') = 0 -> drop n q = []) as Hempty.
  { intros Hz. destruct (decide (drop n q = [])) as [|Hne]; [done|].
    pose proof (queue_volume_pos _ _ Hr' Hne). lia. }
  destruct (Hret Hres) as [Hz|Hd].
  - split_and!; [lia|lia|]. intros Hle.
    rewrite Hempty in Hq', Hsz' by lia. by cbn in *.
  - rewrite Hd in Hv', Hq', Hsz'. cbn in Hv', Hq', Hsz'.
    split_and!; [lia|lia|done].
Qed.

(** X5: a used-up maker keeps its [shares].  [processFill] takes the orders
    it fills completely out of the queue without writing their [shares]
    field: each still shows the shares it had before the call. *)
Theorem processFill_used_up_keep_shares fuel t id st q t' st' :
  limit_wf st q -> intent_ok t -> (length q <= fuel)%nat ->
  processFill fuel t id st = Returned t' st' \/
  processFill fuel t id st = Thrown t' st' ->
  exists n,
    limit_inv st' (drop n q) /\
    forall x o, x ∈ take n q -> store st !! x = Some o ->
      exists o', store st' !! x = Some o' /\ getShares o' = getShares o /\
                 0 < getShares o'.
Proof.
  intros Hwf Hint Hfuel Hres.
  destruct (processFill_account _ _ _ _ _ _ _ Hwf Hint Hfuel Hres)
    as (n & es & (Hinv' & _) & _ & _ & _ & _ & _ & _ & _ & _ & Hkeep & _).
  exists n. split; [done|]. intros x o Hx Ho.
  specialize (Hkeep x Hx). unfold shares_at in Hkeep. rewrite Ho in Hkeep.
  destruct Hwf as (_ & Hr & _). unfold all_resting in Hr.
  rewrite Forall_forall in Hr.
  destruct (Hr x (take_elem _ _ _ Hx)) as (o0 & Ho0 & Hpos & _).
  rewrite Ho in Ho0. injection Ho0 as <-.
  destruct (store st' !! x) as [o'|]; cbn in Hkeep; [|lia].
  exists o'. split_and!; [done|done|lia].
Qed.

(** ** What no call writes *)

Lemma fill_body_identity id cid p t st nxt t' st' :
  fill_body id cid p t st = Next nxt t' st' ->
  length (store st') = length (store st) /\
  limitPrice (lim st') = limitPrice (lim st) /\
  forall x, identity_of <$> (store st' !! x) = identity_of <$> (store st !! x).
Proof.
  unfold fill_body, logExecution.
  destruct (store st !! p) as [o|] eqn:Ho; [|done].
  pose proof (lookup_lt_Some _ _ _ Ho) as Hlen.
  destruct (Z.eqb_spec cid (getClientId o)); [done|].
  cbn [getNextExecutionId store lim book].
  destruct (_ <=? _).
  - rewrite list_lookup_insert_eq by done.
    intros [= <- <- <-]. cbn [store lim]. split_and!.
    + by rewrite length_insert.
    + unfold decreaseSize. cbn. by destruct (0 <? size (lim st)).
    + intros x. destruct (decide (p = x)) as [<-|Hne].
      * rewrite list_lookup_insert_eq, Ho by done. done.
      * by rewrite list_lookup_insert_ne.
  - intros [= <- <- <-]. cbn [store lim]. split_and!.
    + by rewrite length_alter, length_insert.
    + done.
    + intros x. destruct (decide (p = x)) as [<-|Hne].
      * rewrite list_lookup_alter_eq, list_lookup_insert_eq, Ho by done. done.
      * rewrite list_lookup_alter_ne, list_lookup_insert_ne by done. done.
Qed.

Lemma fill_loop_identity id cid : forall fuel nxt t st t' st',
  fill_loop fuel id cid nxt t st = Returned t' st' \/
  fill_loop fuel id cid nxt t st = Thrown t' st' ->
  length (store st') = length (store st) /\
  limitPrice (lim st') = limitPrice (lim st) /\
  forall x, identity_of <$> (store st' !! x) = identity_of <$> (store st !! x).
Proof.
  induction fuel as [|fuel IH]; intros nxt t st t' st'; cbn.
  - destruct nxt as [p|]; [destruct (fill_guard _ _ _)|];
      intros [H|H]; by simplify_eq.
  - destruct nxt as [p|]; [destruct (fill_guard _ _ _)|];
      try (intros [H|H]; by simplify_eq).
    destruct (fill_body _ _ _ _ _) as [n1 t1 st1| |] eqn:Hb.
    + intros Hr. apply IH in Hr as (Hl & Hp & Hid).
      apply fill_body_identity in Hb as (Hl1 & Hp1 & Hid1).
      split_and!; [congruence|congruence|].
      intros x. by rewrite Hid, Hid1.
    + intros [H|H]; by simplify_eq.
    + intros [H|H]; by simplify_eq.
Qed.

(** X6: [processFill] allocates and frees no order and never writes the
    order id, the client id, the side, the price or the [prev] and [next]
    pointers of any order, nor the Limit's price; this holds for every
    call that returns or throws, whatever the state. *)
Theorem processFill_keeps_identity fuel t id st t' st' :
  processFill fuel t id st = Returned t' st' \/
  processFill fuel t id st = Thrown t' st' ->
  length (store st') = length (store st) /\
  limitPrice (lim st') = limitPrice (lim st) /\
  forall x, identity_of <$> (store st' !! x) = identity_of <$> (store st !! x).
Proof. apply fill_loop_identity. Qed.

(** ** The execution names its two orders *)

(** X7: the execution a fill appends carries the Book's symbol, the order
    id and the side of the maker, and for the taker the order id handed to
    [processFill] and the side of the intent. *)
Theorem fill_names_orders id cid p t st o nxt t' st' :
  store st !! p = Some o ->
  fill_body id cid p t st = Next nxt t' st' ->
  exists e,
    appended st st' [e] /\
    symbol e = getSymbol (book st) /\
    makerOrderId e = getOrderId o /\ takerOrderId e = id /\
    makerSide e = getOrderSide o /\ takerSide e = orderSide t.
Proof.
  intros Ho. unfold fill_body, logExecution. rewrite Ho.
  pose proof (lookup_lt_Some _ _ _ Ho) as Hlen.
  destruct (Z.eqb_spec cid (getClientId o)); [done|].
  cbn [getNextExecutionId store lim book].
  destruct (_ <=? _).
  - rewrite list_lookup_insert_eq by done.
    intros [= <- <- <-]. eexists. unfold appended. cbn. done.
  - intros [= <- <- <-]. eexists. unfold appended. cbn. done.
Qed.

(** ** Edges *)

(** X8: [decreaseSize] stops at zero and writes nothing but [size]. *)
Theorem decreaseSize_floor (l : Limit) :
  0 <= size l <= int_max ->
  size (decreaseSize l) = Z.max 0 (size l - 1) /\
  totalVolume (decreaseSize l) = totalVolume l /\
  headOrder (decreaseSize l) = headOrder l /\
  tailOrder (decreaseSize l) = tailOrder l /\
  limitPrice (decreaseSize l) = limitPrice l.
Proof.
  intros Hs. unfold decreaseSize.
  destruct (Z.ltb_spec 0 (size l)); cbn; [|split_and!; [lia|done..]].
  rewrite to_int_id by (unfold in_range, int_min, int_max in *; lia).
  split_and!; [lia|done..].
Qed.

Lemma to_int_of_unsigned z : to_int (to_unsigned z) = to_int z.
Proof.
  unfold to_int, to_unsigned. f_equal.
  rewrite Zplus_mod_idemp_l. reflexivity.
Qed.

(** X9: a taker with negative [shares] is not turned away.  The loop
    condition only asks for [shares != 0]; a turn that completes against
    a resting maker reads the negative volume as a large unsigned one and
    takes the branch of the full fill: the maker leaves the queue, the
    Limit's [totalVolume] rises by the taker's deficit and the taker's
    shares fall by the maker's. *)
Theorem negative_taker_is_filled id cid p t st o nxt t' st' :
  store st !! p = Some o ->
  0 < getShares o <= int_max ->
  int_min <= shares t < 0 ->
  size (lim st) <> 0 ->
  in_range (totalVolume (lim st) - shares t) ->
  fill_guard (Some p) t st = true /\
  (fill_body id cid p t st = Next nxt t' st' ->
     nxt = getNextOrder o /\
     headOrder (lim st') = getNextOrder o /\
     totalVolume (lim st') = totalVolume (lim st) - shares t /\
     totalVolume (lim st) < totalVolume (lim st') /\
     shares t' = to_int (shares t - getShares o) /\
     exists e, appended st st' [e]).
Proof.
  intros Ho Hos Hts Hsz Hr. split.
  { apply fill_guard_true. split_and!; [done|done|lia]. }
  pose proof (lookup_lt_Some _ _ _ Ho) as Hlen.
  unfold fill_body, logExecution. rewrite Ho.
  destruct (Z.eqb_spec cid (getClientId o)); [done|].
  rewrite Z.min_r by lia.
  cbn [getNextExecutionId store lim book].
  rewrite !to_int_of_unsigned.
  rewrite (to_int_id (shares t))
    by (unfold in_range, int_min, int_max in *; lia).
  assert (to_unsigned (getShares o) <= to_unsigned (shares t)) as Hle.
  { unfold to_unsigned, int_min, int_max in *.
    rewrite (Z.mod_small (getShares o)) by lia.
    replace (shares t) with (shares t + 2 ^ 32 - 1 * 2 ^ 32) by lia.
    rewrite Zminus_mod, Z_mod_mult, Z.sub_0_r, Z.mod_mod by lia.
    rewrite Z.mod_small by lia. lia. }
  destruct (Z.leb_spec (to_unsigned (getShares o)) (to_unsigned (shares t)));
    [|lia].
  rewrite list_lookup_insert_eq by done.
  intros [= <- <- <-].
  unfold appended. cbn [book store lim executionQueue addExecutionToQueue
    setHeadOrder headOrder totalVolume shares setTakerShares getNextOrder
    setExecutedQuantity setAvgPrice].
  rewrite totalVolume_decreaseSize. cbn [totalVolume setTotalVolume].
  assert (to_int (to_unsigned (totalVolume (lim st)) - to_unsigned (shares t))
          = totalVolume (lim st) - shares t) as ->.
  { rewrite <- (to_int_id _ Hr). unfold to_int, to_unsigned. f_equal.
    rewrite <- (Zplus_mod_idemp_l (_ - _)), <- Zminus_mod.
    by rewrite Zplus_mod_idemp_l. }
  split_and!; [done|done|done|lia|done|eauto].
Qed.

(** ** Adding orders *)

Lemma setNextOrder_twice n1 n2 o :
  setNextOrder n2 (setNextOrder n1 o) = setNextOrder n2 o.
Proof. reflexivity. Qed.

Lemma setNextOrder_same o : setNextOrder (getNextOrder o) o = o.
Proof. by destruct o. Qed.

(** [addOrderToLimit] on an empty and on a non-empty queue, without
    conversions. *)
Lemma addOrderToLimit_first od id st :
  headOrder (lim st) = None ->
  in_range (totalVolume (lim st) + shares od) ->
  in_range (size (lim st) + 1) ->
  addOrderToLimit od id st =
  Some (mkState (store st ++ [newOrder od id])
          (setTailOrder (Some (length (store st)))
             (setHeadOrder (Some (length (store st)))
                (setSize (size (lim st) + 1)
                   (setTotalVolume (totalVolume (lim st) + shares od) (lim st)))))
          (addOrderToAllOrders (length (store st)) id (book st))).
Proof.
  intros Hh Hrtv Hrsz. unfold addOrderToLimit.
  cbn [headOrder tailOrder setSize setTotalVolume].
  by rewrite (to_int_id _ Hrtv), (to_int_id _ Hrsz), Hh.
Qed.

Lemma addOrderToLimit_behind od id st y q tl :
  is_queue (store st) (headOrder (lim st)) (y :: q) ->
  tailOrder (lim st) = Some tl -> last (y :: q) = Some tl ->
  in_range (totalVolume (lim st) + shares od) ->
  in_range (size (lim st) + 1) ->
  (tl < length (store st))%nat /\
  addOrderToLimit od id st =
  Some (mkState (linked (store st) tl (newOrder od id))
          (setTailOrder (Some (length (store st)))
             (setSize (size (lim st) + 1)
                (setTotalVolume (totalVolume (lim st) + shares od) (lim st))))
          (addOrderToAllOrders (length (store st)) id (book st))).
Proof.
  intros Hq Htl Hlast Hrtv Hrsz.
  assert (tl < length (store st))%nat as Hlen.
  { eapply is_queue_valid; [exact Hq|]. by apply last_Some_elem_of. }
  split; [done|].
  destruct (lookup_lt_is_Some_2 _ _ Hlen) as [otl Hotl].
  destruct Hq as (Hh & _). unfold addOrderToLimit.
  cbn [headOrder tailOrder setSize setTotalVolume].
  rewrite (to_int_id _ Hrtv), (to_int_id _ Hrsz), Hh, Htl.
  by rewrite list_lookup_alter_ne, lookup_app_l, Hotl by lia.
Qed.

(** What [addOrderToLimit] does to a Limit with queue [q]: the new order
    is allocated at the end of the store with [prev] at the old tail, the
    older orders change in their [next] pointer at most, [size] and
    [totalVolume] grow by the order, and the Book registers it. *)
Lemma addOrderToLimit_facts od id st q :
  limit_inv st q -> tail_ok (lim st) q ->
  in_range (totalVolume (lim st) + shares od) ->
  in_range (size (lim st) + 1) ->
  exists st',
    addOrderToLimit od id st = Some st' /\
    limit_inv st' (q ++ [length (store st)]) /\
    tail_ok (lim st') (q ++ [length (store st)]) /\
    store st' !! length (store st)
      = Some (setPrevOrder (last q) (newOrder od id)) /\
    (forall x o, store st !! x = Some o ->
       exists nx, store st' !! x = Some (setNextOrder nx o)) /\
    length (store st') = S (length (store st)) /\
    book st' = addOrderToAllOrders (length (store st)) id (book st) /\
    totalVolume (lim st') = totalVolume (lim st) + shares od /\
    size (lim st') = size (lim st) + 1 /\
    limitPrice (lim st') = limitPrice (lim st).
Proof.
  intros Hinv Htl Hrtv Hrsz.
  destruct (addOrderToLimit_inv od id st q Hinv Htl Hrtv Hrsz)
    as (st' & Hadd & Hinv' & Htl').
  exists st'. split_and!; try done.
  all: destruct Hinv as (Hq & _); destruct q as [|y q].
  all: try (rewrite addOrderToLimit_first in Hadd by done;
            injection Hadd as <-; cbn [store lim book]).
  all: try (destruct (last (y :: q)) as [tl|] eqn:Hlast;
            [|by apply last_None in Hlast];
            destruct (addOrderToLimit_behind od id st y q tl Hq
                        (eq_trans (Htl ltac:(done)) Hlast) Hlast Hrtv Hrsz)
              as (Hlen & Heq);
            rewrite Heq in Hadd; injection Hadd as <-;
            cbn [store lim book]).
  all: try done.
  - by apply list_lookup_middle.
  - by apply linked_new.
  - intros x o Ho. exists (getNextOrder o). rewrite setNextOrder_same.
    by apply lookup_app_l_Some.
  - intros x o' Ho'. pose proof (lookup_lt_Some _ _ _ Ho') as Hx.
    destruct (decide (x = tl)) as [->|Hne].
    + eexists. by apply linked_tail.
    + exists (getNextOrder o'). rewrite setNextOrder_same.
      by rewrite linked_other.
  - rewrite length_app. cbn. lia.
  - unfold linked. rewrite !length_alter, length_app. cbn. lia.
Qed.

Lemma addOrderToLimit_wf od id st q :
  limit_wf st q -> restable od ->
  totalVolume (lim st) + shares od <= int_max ->
  size (lim st) + 1 <= int_max ->
  exists st',
    addOrderToLimit od id st = Some st' /\
    limit_wf st' (q ++ [length (store st)]) /\
    store st' !! length (store st)
      = Some (setPrevOrder (last q) (newOrder od id)) /\
    (forall x o, store st !! x = Some o ->
       exists nx, store st' !! x = Some (setNextOrder nx o)) /\
    length (store st') = S (length (store st)) /\
    book st' = addOrderToAllOrders (length (store st)) id (book st) /\
    totalVolume (lim st') = totalVolume (lim st) + shares od /\
    size (lim st') = size (lim st) + 1.
Proof.
  intros (Hinv & Hrest & Htl & Hmax & Hsmax) Hod Htv Hsz.
  pose proof (queue_volume_nonneg _ _ Hrest) as Hnn.
  pose proof Hinv as (_ & Hsize & Hvol).
  destruct (addOrderToLimit_facts od id st q Hinv Htl)
    as (st' & Hadd & Hinv' & Htl' & Hnew & Hold & Hlen & Hbk & Htv' & Hsz' & _).
  { destruct Hod as (? & _). unfold in_range, int_min, int_max in *. lia. }
  { unfold in_range, int_min, int_max in *. lia. }
  exists st'. split_and!; try done.
  unfold limit_wf. split_and!; try done; [|lia|lia].
  apply Forall_app. split.
  - unfold all_resting in Hrest. rewrite Forall_forall in Hrest.
    apply Forall_forall. intros x Hx.
    destruct (Hrest x Hx) as (o & Ho & Hres).
    destruct (Hold x o Ho) as (nx & Hnx). eauto.
  - constructor; [|constructor]. eexists. split; [exact Hnew|]. exact Hod.
Qed.

(** X10: [addOrderToLimit] keeps a well-formed Limit well-formed and puts
    the new order last.  It is allocated behind the store with the data of
    the intent and [prev] at the old tail, [size] grows by one and
    [totalVolume] by its shares, the queue of executions is not touched,
    and the orders already there change in their [next] pointer at most. *)
Theorem addOrderToLimit_well_formed od id st q :
  limit_wf st q -> restable od ->
  totalVolume (lim st) + shares od <= int_max ->
  size (lim st) + 1 <= int_max ->
  exists st',
    addOrderToLimit od id st = Some st' /\
    limit_wf st' (q ++ [length (store st)]) /\
    store st' !! length (store st)
      = Some (setPrevOrder (last q) (newOrder od id)) /\
    (forall x o, store st !! x = Some o ->
       exists nx, store st' !! x = Some (setNextOrder nx o)) /\
    totalVolume (lim st') = totalVolume (lim st) + shares od /\
    size (lim st') = size (lim st) + 1 /\
    executionQueue (book st') = executionQueue (book st).
Proof.
  intros Hwf Hod Htv Hsz.
  destruct (addOrderToLimit_wf od id st q Hwf Hod Htv Hsz)
    as (st' & Hadd & Hwf' & Hnew & Hold & _ & Hbk & Htv' & Hsz').
  exists st'. split_and!; try done. by rewrite Hbk.
Qed.

Lemma intents_volume_nonneg (ods : list (OrderData P * Z)) :
  Forall (fun i => restable (fst i)) ods -> 0 <= intents_volume ods.
Proof.
  induction 1 as [|[od id] ods (Hs & _) _ IH]; [done|].
  unfold intents_volume in *. cbn in *. lia.
Qed.

Lemma addOrders_wf (ods : list (OrderData P * Z)) : forall st q,
  limit_wf st q ->
  Forall (fun i => restable (fst i)) ods ->
  totalVolume (lim st) + intents_volume ods <= int_max ->
  size (lim st) + Z.of_nat (length ods) <= int_max ->
  exists st',
    addOrders ods st = Some st' /\
    limit_wf st' (q ++ seq (length (store st)) (length ods)) /\
    totalVolume (lim st') = totalVolume (lim st) + intents_volume ods /\
    (forall i od id, ods !! i = Some (od, id) ->
       exists o, store st' !! (length (store st) + i)%nat = Some o /\
                 getOrderId o = id /\ getClientId o = clientId od /\
                 getShares o = shares od) /\
    (forall x o, store st !! x = Some o ->
       exists nx, store st' !! x = Some (setNextOrder nx o)).
Proof.
  induction ods as [|[od id] ods IH]; intros st q Hwf Hok Htv Hsz.
  - exists st. cbn. rewrite app_nil_r. split_and!; try done; [lia|].
    intros x o Ho. exists (getNextOrder o). by rewrite setNextOrder_same.
  - pose proof (Forall_inv Hok) as Hod. cbn [fst] in Hod.
    pose proof (Forall_inv_tail Hok) as Hok'.
    pose proof (intents_volume_nonneg _ Hok') as Hnn.
    cbn [intents_volume foldr fst length] in Htv, Hsz.
    fold (intents_volume ods) in Htv.
    destruct (addOrderToLimit_wf od id st q Hwf Hod)
      as (st1 & Hadd & Hwf1 & Hnew & Hold & Hlen & _ & Htv1 & Hsz1); [lia..|].
    destruct (IH st1 (q ++ [length (store st)]) Hwf1 Hok')
      as (st' & Hadds & Hwf' & Htv' & Hnews & Holds); [lia..|].
    exists st'. cbn [addOrders]. rewrite Hadd.
    split_and!.
    + done.
    + rewrite Hlen, <- app_assoc in Hwf'. exact Hwf'.
    + cbn [intents_volume foldr fst]. fold (intents_volume ods). lia.
    + intros [|i] od' id' Hi.
      * injection Hi as <- <-. rewrite Nat.add_0_r.
        destruct (Holds _ _ Hnew) as (nx & Hnx).
        eexists. split; [exact Hnx|]. done.
      * cbn in Hi. destruct (Hnews i od' id' Hi) as (o & Ho & Hfields).
        exists o. split; [|done].
        rewrite Hlen in Ho. by rewrite Nat.add_succ_r.
    + intros x o Ho. destruct (Hold x o Ho) as (nx & Hnx).
      destruct (Holds _ _ Hnx) as (nx' & Hnx'). eauto.
Qed.

(** X11: time priority is the order of the calls.  Intents added one after
    another to a well-formed Limit join its queue in that order behind the
    orders already there, each under its own order id with its client and
    shares; the Limit stays well-formed and [totalVolume] grows by the sum
    of their shares. *)
Theorem addOrders_arrival_order (ods : list (OrderData P * Z)) st q :
  limit_wf st q ->
  Forall (fun i => restable (fst i)) ods ->
  totalVolume (lim st) + intents_volume ods <= int_max ->
  size (lim st) + Z.of_nat (length ods) <= int_max ->
  exists st',
    addOrders ods st = Some st' /\
    limit_wf st' (q ++ seq (length (store st)) (length ods)) /\
    totalVolume (lim st') = totalVolume (lim st) + intents_volume ods /\
    (forall i od id, ods !! i = Some (od, id) ->
       exists o, store st' !! (length (store st) + i)%nat = Some o /\
                 getOrderId o = id /\ getClientId o = clientId od /\
                 getShares o = shares od).
Proof.
  intros Hwf Hok Htv Hsz.
  destruct (addOrders_wf ods st q Hwf Hok Htv Hsz)
    as (st' & ? & ? & ? & ? & _).
  by exists st'.
Qed.

Lemma back_linked_snoc h h' q onew : forall (b0 : option ptr),
  back_linked h b0 q ->
  (forall x o, h !! x = Some o ->
     exists nx, h' !! x = Some (setNextOrder nx o)) ->
  h' !! length h = Some onew ->
  getPrevOrder onew = from_option Some b0 (last q) ->
  back_linked h' b0 (q ++ [length h]).
Proof.
  induction q as [|x q IH]; intros b0 Hb Hold Hnew Hprev.
  - cbn. split; [|done]. eauto.
  - destruct Hb as ((o & Ho & Hp) & Hb). cbn [app back_linked]. split.
    + destruct (Hold x o Ho) as (nx & Hnx). eexists. split; [exact Hnx|done].
    + apply IH; try done. rewrite Hprev, last_cons.
      by destruct (last q).
Qed.

(** X12: [addOrderToLimit] keeps the backward links.  When every queued
    order points back at its predecessor and the first at none, this still
    holds with the new order at the end of the queue. *)
Theorem addOrderToLimit_back_linked od id st q :
  limit_wf st q -> restable od ->
  totalVolume (lim st) + shares od <= int_max ->
  size (lim st) + 1 <= int_max ->
  back_linked (store st) None q ->
  exists st',
    addOrderToLimit od id st = Some st' /\
    back_linked (store st') None (q ++ [length (store st)]).
Proof.
  intros Hwf Hod Htv Hsz Hback.
  destruct (addOrderToLimit_wf od id st q Hwf Hod Htv Hsz)
    as (st' & Hadd & _ & Hnew & Hold & _).
  exists st'. split; [done|].
  eapply back_linked_snoc; [exact Hback|exact Hold|exact Hnew|].
  cbn. by destruct (last q).
Qed.

Lemma fill_turns_client id cid : forall fuel nxt t st t' st',
  fill_loop fuel id cid nxt t st = Returned t' st' \/
  fill_loop fuel id cid nxt t st = Thrown t' st' ->
  clientId t' = clientId t.
Proof.
  induction fuel as [|fuel IH]; intros nxt t st t' st'; cbn.
  - destruct nxt as [p|]; [destruct (fill_guard _ _ _)|];
      intros [H|H]; by simplify_eq.
  - destruct nxt as [p|]; [destruct (fill_guard _ _ _)|];
      try (intros [H|H]; by simplify_eq).
    destruct (fill_body _ _ _ _ _) as [n1 t1 st1| |] eqn:Hb.
    + intros Hr. apply IH in Hr as ->.
      by apply fill_body_frame in Hb as (? & ? & _ & _ & _ & _ & _ & _ & _ & _ & ?).
    + intros [H|H]; by simplify_eq.
    + intros [H|H]; by simplify_eq.
Qed.

(** ** Calls one after another *)

(** X13: the newest order trades last.  After [addOrderToLimit] put an
    order behind the queue [q], a call of [processFill] that writes that
    order has used up every order of [q]: the queue it leaves is empty or
    holds the new order only. *)
Theorem newest_order_trades_last od id st q st1 fuel t id' t' st' :
  limit_wf st q -> restable od ->
  totalVolume (lim st) + shares od <= int_max ->
  size (lim st) + 1 <= int_max ->
  addOrderToLimit od id st = Some st1 ->
  intent_ok t -> (S (length q) <= fuel)%nat ->
  processFill fuel t id' st1 = Returned t' st' \/
  processFill fuel t id' st1 = Thrown t' st' ->
  store st' !! length (store st) <> store st1 !! length (store st) ->
  exists r,
    limit_wf st' r /\ (r = [] \/ r = [length (store st)]).
Proof.
  intros Hwf Hod Htv Hsz Hadd Hint Hfuel Hres Hnew.
  destruct (addOrderToLimit_wf od id st q Hwf Hod Htv Hsz)
    as (st1' & Hadd' & Hwf1 & _).
  rewrite Hadd in Hadd'. injection Hadd' as <-.
  destruct (processFill_account fuel t id' st1 _ t' st' Hwf1 Hint)
    as (n & es & Hwf' & _ & _ & _ & Hlen & _ & _ & _ & Hun & _);
    [rewrite length_app; cbn; lia|done|].
  assert (length q < length es)%nat as Hlt.
  { destruct (decide (length q < length es)%nat) as [|Hge]; [done|].
    exfalso. apply Hnew, Hun. rewrite take_app_le by lia.
    intros Hin%take_elem.
    destruct Hwf as ((Hq & _) & _).
    pose proof (is_queue_valid _ _ _ _ Hq Hin). lia. }
  exists (drop n (q ++ [length (store st)])). split; [done|].
  rewrite drop_app_ge by lia.
  destruct (n - length q)%nat; [by right|left]. cbn. apply drop_nil.
Qed.

(** X14: a call repeated on what a call left does nothing more.  After a
    return the taker has nothing left to take from this Limit and the
    second call returns at once; after the self-trade error the second
    call throws again at once; in both cases taker and state are those
    the first call left. *)
Theorem processFill_again fuel t id st q t' st' :
  limit_wf st q -> intent_ok t -> (length q <= fuel)%nat ->
  (processFill fuel t id st = Returned t' st' ->
     forall fuel' id', processFill fuel' t' id' st' = Returned t' st') /\
  (processFill fuel t id st = Thrown t' st' ->
     forall fuel' id', processFill (S fuel') t' id' st' = Thrown t' st').
Proof.
  intros Hwf Hint Hfuel.
  destruct (walk_spec id (clientId t) q fuel (headOrder (lim st)) t st
              (limit_wf_walk_inv _ _ _ Hwf Hint) Hfuel)
    as (n & es & t2 & st2 & Hw & _ & _ & _ & _ & _ & Hout).
  fold (processFill fuel t id st) in Hout.
  destruct Hw as (_ & (Hq & Hsz & _) & _).
  split; intros Hres.
  - destruct Hout as [(Hr & Hstop)|(Hr & _)]; rewrite Hres in Hr; [|done].
    injection Hr as <- <-. intros fuel' id'. unfold processFill.
    destruct Hstop as [Hz|Hd].
    + destruct (headOrder (lim st')); [|by destruct fuel'].
      destruct fuel'; cbn; unfold fill_guard; rewrite Hz; cbn;
        by rewrite !andb_false_r.
    + rewrite Hd in Hq. cbn in Hq. rewrite Hq. by destruct fuel'.
  - destruct Hout as [(Hr & _)|(Hr & Hnz & x & o & Hx & Ho & Hc)];
      rewrite Hres in Hr; [done|].
    injection Hr as <- <-. intros fuel' id'. unfold processFill.
    destruct (drop n q) as [|y r] eqn:Hd; [done|].
    injection Hx as ->. destruct Hq as (Hh & _). rewrite Hh.
    assert (clientId t' = clientId t) as Hcl.
    { destruct (fill_turns_client id (clientId t) fuel
                  (headOrder (lim st)) t st t' st'); [by right|done]. }
    cbn [fill_loop].
    assert (fill_guard (Some x) t' st' = true) as ->.
    { apply fill_guard_true. split_and!; [done| |done].
      rewrite Hsz. cbn. lia. }
    unfold fill_body. rewrite Ho, Hcl, Hc. by rewrite Z.eqb_refl.
Qed.

End Further.

(** * The further properties at work on the sample books *)

Section FurtherWitnesses.

Import Sample.

#[local] Existing Instance IntPrice.

Lemma no_bid_wf : limit_wf no_bid [].
Proof.
  unfold limit_wf, limit_inv, all_resting, tail_ok, int_max.
  split_and!; try reflexivity; try done; cbn; lia.
Defined.

Lemma one_bid_wf : limit_wf one_bid [0%nat].
Proof.
  unfold limit_wf. split_and!.
  - exact one_bid_inv.
  - exact one_bid_resting.
  - intros _. reflexivity.
  - unfold int_max. cbn. lia.
  - unfold int_max. cbn. lia.
Defined.

Lemma two_bids_wf : limit_wf two_bids [0%nat; 1%nat].
Proof.
  unfold limit_wf. split_and!.
  - exact two_bids_inv.
  - exact two_bids_resting.
  - intros _. reflexivity.
  - unfold int_max. cbn. lia.
  - unfold int_max. cbn. lia.
Defined.

Lemma restable_sample c n :
  0 < n <= int_max -> restable (mkOrderData c Buy 100 n 0 0).
Proof. unfold restable, int_max. cbn. lia. Defined.

Lemma processFill_well_formed_witness :
  exists t' st',
    processFill 2 (intent 3 4) 9 two_bids = Returned t' st' /\
    exists n, limit_wf st' (drop n [0%nat; 1%nat]) /\ intent_ok t'.
Proof.
  eexists _, _. split; [vm_compute; reflexivity|].
  eapply (processFill_well_formed 2 (intent 3 4) 9 two_bids [0%nat; 1%nat]).
  - exact two_bids_wf.
  - apply intent_ok_sample. unfold int_max. lia.
  - cbn. lia.
  - left. reflexivity.
Defined.

Lemma processFill_conservation_witness :
  exists t' st',
    processFill 2 (intent 2 4) 9 two_bids = Thrown t' st' /\
    exists es,
      appended two_bids st' es /\
      shares (intent 2 4) - shares t' = executed_volume es /\
      executedQuantity t' - executedQuantity (intent 2 4) = executed_volume es /\
      totalVolume (lim two_bids) - totalVolume (lim st') = executed_volume es.
Proof.
  eexists _, _. split; [vm_compute; reflexivity|].
  eapply (processFill_conservation 2 (intent 2 4) 9 two_bids [0%nat; 1%nat]).
  - exact two_bids_wf.
  - apply intent_ok_sample. unfold int_max. lia.
  - cbn. lia.
  - right. reflexivity.
Defined.

Lemma processFill_untouched_orders_witness :
  exists t' st',
    processFill 2 (intent 3 2) 9 two_bids = Returned t' st' /\
    exists es,
      appended two_bids st' es /\ (length es <= 2)%nat /\
      forall x, x ∉ take (length es) [0%nat; 1%nat] ->
                store st' !! x = store two_bids !! x.
Proof.
  eexists _, _. split; [vm_compute; reflexivity|].
  eapply (processFill_untouched_orders 2 (intent 3 2) 9 two_bids [0%nat; 1%nat]).
  - exact two_bids_wf.
  - apply intent_ok_sample. unfold int_max. lia.
  - cbn. lia.
  - left. reflexivity.
Defined.

Lemma two_bids_no_self_trade : no_self_trade (store two_bids) 3 [0%nat; 1%nat].
Proof.
  constructor; [|constructor; [|constructor]];
    intros o [= <-]; cbn; lia.
Defined.

Lemma processFill_amounts_witness :
  exists t' st',
    processFill 2 (intent 3 7) 9 two_bids = Returned t' st' /\
    shares t' = Z.max 0 (7 - 5) /\
    totalVolume (lim st') = Z.max 0 (5 - 7) /\
    (5 <= 7 -> headOrder (lim st') = None /\ size (lim st') = 0).
Proof.
  apply (processFill_amounts 2 (intent 3 7) 9 two_bids [0%nat; 1%nat]).
  - exact two_bids_wf.
  - apply intent_ok_sample. unfold int_max. lia.
  - exact two_bids_no_self_trade.
  - cbn. lia.
Defined.

Lemma processFill_used_up_keep_shares_witness :
  exists t' st',
    processFill 2 (intent 3 4) 9 two_bids = Returned t' st' /\
    exists n,
      limit_inv st' (drop n [0%nat; 1%nat]) /\
      forall x o, x ∈ take n [0%nat; 1%nat] -> store two_bids !! x = Some o ->
        exists o', store st' !! x = Some o' /\ getShares o' = getShares o /\
                   0 < getShares o'.
Proof.
  eexists _, _. split; [vm_compute; reflexivity|].
  eapply (processFill_used_up_keep_shares 2 (intent 3 4) 9 two_bids
            [0%nat; 1%nat]).
  - exact two_bids_wf.
  - apply intent_ok_sample. unfold int_max. lia.
  - cbn. lia.
  - left. reflexivity.
Defined.

Lemma processFill_keeps_identity_witness :
  exists t' st',
    processFill 2 (intent 3 4) 9 two_bids = Returned t' st' /\
    length (store st') = length (store two_bids) /\
    limitPrice (lim st') = limitPrice (lim two_bids) /\
    forall x, identity_of <$> (store st' !! x)
              = identity_of <$> (store two_bids !! x).
Proof.
  eexists _, _. split; [vm_compute; reflexivity|].
  eapply (processFill_keeps_identity 2 (intent 3 4) 9 two_bids).
  left. reflexivity.
Defined.

Lemma fill_names_orders_witness :
  exists nxt t' st',
    fill_body 9 2 0%nat (intent 2 4) one_bid = Next nxt t' st' /\
    exists e,
      appended one_bid st' [e] /\
      symbol e = "SYM"%string /\
      makerOrderId e = 7 /\ takerOrderId e = 9 /\
      makerSide e = Buy /\ takerSide e = Sell.
Proof.
  eexists _, _, _. split; [vm_compute; reflexivity|].
  eapply (fill_names_orders 9 2 0%nat (intent 2 4) one_bid
            (order 7 1 5 None None)); reflexivity.
Defined.

Lemma decreaseSize_floor_witness :
  size (decreaseSize (newLimit 100)) = Z.max 0 (0 - 1) /\
  totalVolume (decreaseSize (newLimit 100)) = 0 /\
  headOrder (decreaseSize (newLimit 100)) = None /\
  tailOrder (decreaseSize (newLimit 100)) = None /\
  limitPrice (decreaseSize (newLimit 100)) = 100.
Proof.
  apply (decreaseSize_floor (newLimit 100)). unfold int_max. cbn. lia.
Defined.

Lemma negative_taker_is_filled_witness :
  exists nxt t' st',
    fill_body 9 2 0%nat (intent 2 (-3)) one_bid = Next nxt t' st' /\
    fill_guard (Some 0%nat) (intent 2 (-3)) one_bid = true /\
    nxt = None /\
    headOrder (lim st') = None /\
    totalVolume (lim st') = 5 - -3 /\
    5 < totalVolume (lim st') /\
    shares t' = to_int (-3 - 5) /\
    exists e, appended one_bid st' [e].
Proof.
  eexists _, _, _. split; [vm_compute; reflexivity|].
  assert (forall nxt t' st',
            fill_guard (Some 0%nat) (intent 2 (-3)) one_bid = true /\
            (fill_body 9 2 0%nat (intent 2 (-3)) one_bid = Next nxt t' st' ->
             nxt = getNextOrder (order 7 1 5 None None) /\
             headOrder (lim st') = getNextOrder (order 7 1 5 None None) /\
             totalVolume (lim st')
               = totalVolume (lim one_bid) - shares (intent 2 (-3)) /\
             totalVolume (lim one_bid) < totalVolume (lim st') /\
             shares t'
               = to_int (shares (intent 2 (-3))
                         - getShares (order 7 1 5 None None)) /\
             exists e, appended one_bid st' [e])) as Hyp.
  { intros nxt t' st'.
    apply (negative_taker_is_filled 9 2 0%nat (intent 2 (-3)) one_bid
             (order 7 1 5 None None) nxt t' st').
    - reflexivity.
    - unfold int_max. cbn. lia.
    - unfold int_min. cbn. lia.
    - cbn. lia.
    - unfold in_range, int_min, int_max. cbn. lia. }
  split; [exact (proj1 (Hyp None (intent 2 0) one_bid))|].
  eapply (proj2 (Hyp _ _ _)). vm_compute. reflexivity.
Defined.

Lemma addOrderToLimit_well_formed_witness :
  exists st',
    addOrderToLimit (mkOrderData 3 Buy 100 4 0 0) 11 two_bids = Some st' /\
    limit_wf st' ([0%nat; 1%nat] ++ [2%nat]) /\
    store st' !! 2%nat
      = Some (setPrevOrder (Some 1%nat)
                (newOrder (mkOrderData 3 Buy 100 4 0 0) 11)) /\
    (forall x o, store two_bids !! x = Some o ->
       exists nx, store st' !! x = Some (setNextOrder nx o)) /\
    totalVolume (lim st') = 5 + 4 /\
    size (lim st') = 2 + 1 /\
    executionQueue (book st') = [].
Proof.
  apply (addOrderToLimit_well_formed (mkOrderData 3 Buy 100 4 0 0) 11
           two_bids [0%nat; 1%nat]).
  - exact two_bids_wf.
  - apply restable_sample. unfold int_max. lia.
  - unfold int_max. cbn. lia.
  - unfold int_max. cbn. lia.
Defined.

Lemma addOrders_arrival_order_witness :
  exists st',
    addOrders [(mkOrderData 1 Buy 100 5 0 0, 7); (mkOrderData 2 Buy 100 3 0 0, 8)]
              no_bid = Some st' /\
    limit_wf st' ([] ++ seq 0 2) /\
    totalVolume (lim st') = 0 + (5 + (3 + 0)) /\
    (forall i od id,
       [(mkOrderData 1 Buy 100 5 0 0, 7); (mkOrderData 2 Buy 100 3 0 0, 8)] !! i
         = Some (od, id) ->
       exists o, store st' !! (0 + i)%nat = Some o /\
                 getOrderId o = id /\ getClientId o = clientId od /\
                 getShares o = shares od).
Proof.
  apply (addOrders_arrival_order
           [(mkOrderData 1 Buy 100 5 0 0, 7); (mkOrderData 2 Buy 100 3 0 0, 8)]
           no_bid []).
  - exact no_bid_wf.
  - constructor; [|constructor; [|constructor]];
      apply restable_sample; unfold int_max; lia.
  - unfold int_max. cbn. lia.
  - unfold int_max. cbn. lia.
Defined.

Lemma addOrderToLimit_back_linked_witness :
  exists st',
    addOrderToLimit (mkOrderData 3 Buy 100 4 0 0) 11 two_bids = Some st' /\
    back_linked (store st') None ([0%nat; 1%nat] ++ [2%nat]).
Proof.
  apply (addOrderToLimit_back_linked (mkOrderData 3 Buy 100 4 0 0) 11
           two_bids [0%nat; 1%nat]).
  - exact two_bids_wf.
  - apply restable_sample. unfold int_max. lia.
  - unfold int_max. cbn. lia.
  - unfold int_max. cbn. lia.
  - cbn. split_and!; try done; eexists; split; reflexivity.
Defined.

Lemma newest_order_trades_last_witness :
  exists st1 t' st',
    addOrderToLimit (mkOrderData 3 Buy 100 4 0 0) 11 one_bid = Some st1 /\
    processFill 2 (intent 2 7) 9 st1 = Returned t' st' /\
    exists r, limit_wf st' r /\ (r = [] \/ r = [1%nat]).
Proof.
  eexists _, _, _. split; [vm_compute; reflexivity|].
  split; [vm_compute; reflexivity|].
  eapply (newest_order_trades_last (mkOrderData 3 Buy 100 4 0 0) 11 one_bid
            [0%nat] _ 2 (intent 2 7) 9).
  - exact one_bid_wf.
  - apply restable_sample. unfold int_max. lia.
  - unfold int_max. cbn. lia.
  - unfold int_max. cbn. lia.
  - reflexivity.
  - apply intent_ok_sample. unfold int_max. lia.
  - cbn. lia.
  - left. reflexivity.
  - cbn. intros [=].
Defined.

Lemma processFill_again_witness :
  exists t' st',
    processFill 2 (intent 2 4) 9 two_bids = Thrown t' st' /\
    forall fuel' id', processFill (S fuel') t' id' st' = Thrown t' st'.
Proof.
  eexists _, _. split; [vm_compute; reflexivity|].
  apply (proj2 (processFill_again 2 (intent 2 4) 9 two_bids [0%nat; 1%nat]
                  _ _ two_bids_wf
                  (intent_ok_sample 2 4 ltac:(unfold int_max; lia))
                  ltac:(cbn; lia))).
  reflexivity.
Defined.

End FurtherWitnesses.
